(** * dcac-dataserver: the real-time core of [server.js]

    A shallow embedding of the single-slot sample store ([DataBuffer]), the
    WebSocket client registry ([connectedClients]), the liveness sweeper
    ([pingInterval]), the broadcaster ([broadcastData]) and the HTTP handlers
    of [/api/data], [/api/power-quality], [/api/harmonics] and [/api/events].

    Conventions of the embedding:
    - JavaScript values are an inductive type; numbers are IEEE binary64
      ([PrimFloat.float]); objects are property lists in insertion order.
    - A [Map] is an association list in insertion order, as [Map.forEach]
      visits it.
    - Handlers are computations in a state-and-exception monad over the
      server's globals; [try]/[catch] is [try_catch].
    - Calls that leave the process (a transport's [send], [ping] and
      [terminate], [JSON.stringify]) are recorded in the [effects] trace.
    - [Date.now()] and [Math.random()] are inputs of the handler that calls
      them; [console] output is not modelled. *)

From Stdlib Require Import Floats.PrimFloat.
From Stdlib Require Import String List Bool Arith NArith ZArith Permutation Lia.
Import ListNotations.
Local Open Scope string_scope.
Local Open Scope list_scope.

Set Warnings "-register-all".

(** ** JavaScript values *)

Inductive value : Type :=
| VUndefined
| VNull
| VBool (b : bool)
| VNum (n : float)
| VStr (s : string)
| VArr (l : list value)
| VObj (props : list (string * value)).

(** An object: its own enumerable properties, in insertion order. *)
Definition object : Type := list (string * value).

Module Js.

(** [ToBoolean]: [undefined], [null], [false], [0], [-0], [NaN] and the
    empty string are falsy; everything else, arrays and objects included,
    is truthy. *)
Definition truthy (v : value) : bool :=
  match v with
  | VUndefined | VNull => false
  | VBool b => b
  | VNum n => negb (is_zero n || is_nan n)
  | VStr s => negb (String.eqb s "")
  | VArr _ | VObj _ => true
  end.

(** [Array.isArray]. *)
Definition isArray (v : value) : bool :=
  match v with VArr _ => true | _ => false end.

(** [o[k]] on an object: the property's value, [undefined] when absent. *)
Fixpoint obj_get (k : string) (o : object) : value :=
  match o with
  | [] => VUndefined
  | (k', v) :: o' => if String.eqb k k' then v else obj_get k o'
  end.

(** [o[k] = v]: an existing property keeps its position. *)
Fixpoint obj_set (k : string) (v : value) (o : object) : object :=
  match o with
  | [] => [(k, v)]
  | (k', v') :: o' =>
      if String.eqb k k' then (k, v) :: o' else (k', v') :: obj_set k v o'
  end.

Definition obj_keys (o : object) : list string := map fst o.

(** [a.length > 0] for an array [a]. *)
Definition nonempty (v : value) : bool :=
  match v with VArr (_ :: _) => true | _ => false end.

(** [s.substring(n)]: the characters of [s] from index [n] on. *)
Fixpoint substring_from (n : nat) (s : string) : string :=
  match n, s with
  | 0, _ => s
  | S _, EmptyString => EmptyString
  | S n', String _ s' => substring_from n' s'
  end.

(** A non-negative integer as a number (exact below 2^53). *)
Fixpoint number_of_nat (n : nat) : float :=
  match n with
  | 0 => 0%float
  | S n' => (number_of_nat n' + 1)%float
  end.

End Js.

(** ** [Map]: insertion-ordered, keyed by strings *)

Module Map.
Section Ops.
Context {V : Type}.

Definition t : Type := list (string * V).

Fixpoint get (k : string) (m : t) : option V :=
  match m with
  | [] => None
  | (k', v) :: m' => if String.eqb k k' then Some v else get k m'
  end.

(** [m.set(k, v)]: a present key keeps its place and changes its value; a
    new key goes last. *)
Fixpoint set (k : string) (v : V) (m : t) : t :=
  match m with
  | [] => [(k, v)]
  | (k', v') :: m' =>
      if String.eqb k k' then (k, v) :: m' else (k', v') :: set k v m'
  end.

Fixpoint delete (k : string) (m : t) : t :=
  match m with
  | [] => []
  | (k', v') :: m' =>
      if String.eqb k k' then delete k m' else (k', v') :: delete k m'
  end.

Definition size (m : t) : nat := length m.

Definition keys (m : t) : list string := map fst m.

(** Keys of a [Map] are pairwise distinct. *)
Definition wf (m : t) : Prop := NoDup (keys m).

Fixpoint mem (k : string) (ks : list string) : bool :=
  match ks with
  | [] => false
  | k' :: ks' => String.eqb k k' || mem k ks'
  end.

Fixpoint wfb (m : t) : bool :=
  match m with
  | [] => true
  | (k, _) :: m' => negb (mem k (keys m')) && wfb m'
  end.

End Ops.
Arguments t V : clear implicits.
End Map.

(** [Set] of strings, insertion-ordered. *)
Module StrSet.
Definition t : Type := list string.
Definition add (k : string) (s : t) : t :=
  if Map.mem k s then s else s ++ [k].
End StrSet.

(** ** Transports and registry entries *)

(** [readyState] of a [ws] socket; [WebSocket.OPEN] is [OPEN]. *)
Inductive ReadyState : Type := CONNECTING | OPEN | CLOSING | CLOSED.

Definition ReadyState_eqb (a b : ReadyState) : bool :=
  match a, b with
  | CONNECTING, CONNECTING | OPEN, OPEN | CLOSING, CLOSING | CLOSED, CLOSED => true
  | _, _ => false
  end.

(** A transport handle of the [ws] library, seen from the server: its
    identity, its [readyState], and whether a call of [send], [ping] or
    [terminate] on it throws. *)
Record WebSocket : Type := mkWebSocket {
  socket : nat;
  readyState : ReadyState;
  send_throws : bool;
  ping_throws : bool;
  terminate_throws : bool
}.

(** [clientInfo] of the ['connection'] handler. *)
Record ClientInfo : Type := mkClientInfo {
  ws : WebSocket;
  connectedAt : float;
  lastPing : float;
  isAlive : bool
}.

(** Calls that leave the process, in the order they are made. [ok] is
    [false] when the call threw. *)
Inductive effect : Type :=
| Stringify (data : value)
| WsSend (w : WebSocket) (message : string) (ok : bool)
| WsPing (w : WebSocket) (ok : bool)
| WsTerminate (w : WebSocket) (ok : bool).

(** ** The server's globals *)

(** [class DataBuffer]. *)
Record DataBuffer : Type := mkDataBuffer {
  latestData : option object
}.

Record Server : Type := mkServer {
  connectedClients : Map.t ClientInfo;
  dataPoints : DataBuffer;
  immediates : list object;   (* pending [setImmediate] broadcasts, oldest first *)
  effects : list effect
}.

Definition initial : Server :=
  mkServer [] (mkDataBuffer None) [] [].

(** ** State and exceptions *)

Inductive completion (A : Type) : Type :=
| Normal (a : A)
| Throw (err : string).
Arguments Normal {A} a.
Arguments Throw {A} err.

Definition M (A : Type) : Type := Server -> completion A * Server.

Definition ret {A} (a : A) : M A := fun s => (Normal a, s).

Definition bind {A B} (m : M A) (k : A -> M B) : M B :=
  fun s =>
    match m s with
    | (Normal a, s') => k a s'
    | (Throw e, s') => (Throw e, s')
    end.

Definition throw {A} (e : string) : M A := fun s => (Throw e, s).

(** [try { m } catch (err) { h(err) }]: what [m] did to the state before
    it threw stays done. *)
Definition try_catch {A} (m : M A) (h : string -> M A) : M A :=
  fun s =>
    match m s with
    | (Normal a, s') => (Normal a, s')
    | (Throw e, s') => h e s'
    end.

Definition get_state : M Server := fun s => (Normal s, s).

Definition modify (f : Server -> Server) : M unit := fun s => (Normal tt, f s).

Declare Scope js_scope.
Delimit Scope js_scope with js.
Notation "x <- m ;; k" := (bind m (fun x => k))
  (at level 100, m at next level, right associativity) : js_scope.
Notation "m ;; k" := (bind m (fun _ => k))
  (at level 100, right associativity) : js_scope.
Local Open Scope js_scope.

Definition with_clients (f : Map.t ClientInfo -> Map.t ClientInfo) (s : Server) : Server :=
  mkServer (f (connectedClients s)) (dataPoints s) (immediates s) (effects s).

Definition with_dataPoints (d : DataBuffer) (s : Server) : Server :=
  mkServer (connectedClients s) d (immediates s) (effects s).

Definition with_immediates (f : list object -> list object) (s : Server) : Server :=
  mkServer (connectedClients s) (dataPoints s) (f (immediates s)) (effects s).

Definition emit (e : effect) : M unit :=
  modify (fun s =>
    mkServer (connectedClients s) (dataPoints s) (immediates s) (effects s ++ [e])).

(** ** Transport calls *)

Definition ws_send (w : WebSocket) (message : string) : M unit :=
  if send_throws w
  then (emit (WsSend w message false) ;; throw "send")
  else emit (WsSend w message true).

Definition ws_ping (w : WebSocket) : M unit :=
  if ping_throws w
  then (emit (WsPing w false) ;; throw "ping")
  else emit (WsPing w true).

Definition ws_terminate (w : WebSocket) : M unit :=
  if terminate_throws w
  then (emit (WsTerminate w false) ;; throw "terminate")
  else emit (WsTerminate w true).

(** ** HTTP responses *)

(** [res.status(status).json(body)]; [res.json(body)] has status 200. *)
Record response : Type := mkResponse {
  status : nat;
  body : value
}.

(** [v.k] for the property names this program reads ([timestamp], [volt],
    [current], [power], [harmonic], [events]): a [TypeError] on [undefined]
    and [null], the own property of an object, [undefined] on arrays and
    primitives, which have no property of these names. *)
Definition member (v : value) (k : string) : M value :=
  match v with
  | VUndefined | VNull => throw "TypeError"
  | VObj o => ret (Js.obj_get k o)
  | VBool _ | VNum _ | VStr _ | VArr _ => ret VUndefined
  end.

Section Handlers.

(** [JSON.stringify], a built-in of the runtime. *)
Variable JSON_stringify : value -> string.

(** *** [DataBuffer] *)

(** [push(data)]: [latestData = { ...data, storedAt: Date.now() }]. *)
Definition DataBuffer_push (data : object) (now : float) (d : DataBuffer) : DataBuffer :=
  mkDataBuffer (Some (Js.obj_set "storedAt" (VNum now) data)).

(** [getLatest()]: [latestData ? [latestData] : []]. *)
Definition DataBuffer_getLatest (d : DataBuffer) : list object :=
  match latestData d with
  | Some o => [o]
  | None => []
  end.

Definition DataBuffer_clear (d : DataBuffer) : DataBuffer := mkDataBuffer None.

(** *** The client registry *)

(** ['connection']: [rnd] is [Math.random().toString(36)], [now1] and
    [now2] the two readings of [Date.now()]. *)
Definition on_connection (rnd : string) (w : WebSocket) (now1 now2 : float) : M unit :=
  let clientId := Js.substring_from 7 rnd in
  let clientInfo := mkClientInfo w now1 now2 true in
  modify (with_clients (Map.set clientId clientInfo)).

(** ['pong'] of the connection registered under [clientId]. *)
Definition on_pong (clientId : string) (now : float) : M unit :=
  s <- get_state ;;
  match Map.get clientId (connectedClients s) with
  | Some client =>
      modify (with_clients
        (Map.set clientId (mkClientInfo (ws client) (connectedAt client) now true)))
  | None => ret tt
  end.

Definition cleanupClient (clientId : string) : M unit :=
  s <- get_state ;;
  match Map.get clientId (connectedClients s) with
  | Some client =>
      try_catch (ws_terminate (ws client)) (fun _ => ret tt) ;;
      modify (with_clients (Map.delete clientId))
  | None => ret tt
  end.

(** ['error'] and ['close'] of the connection registered under [clientId]. *)
Definition on_error (clientId : string) : M unit := cleanupClient clientId.
Definition on_close (clientId : string) : M unit := cleanupClient clientId.

(** [connectedClients.forEach]: the callback sees the entries that are in
    the map when their turn comes; [a] carries the variables the callback
    closes over and assigns. No callback of this program adds a key. *)
Fixpoint forEach_keys {A} (f : ClientInfo -> string -> A -> M A)
    (ks : list string) (a : A) : M A :=
  match ks with
  | [] => ret a
  | k :: ks' =>
      s <- get_state ;;
      match Map.get k (connectedClients s) with
      | Some client => a' <- f client k a ;; forEach_keys f ks' a'
      | None => forEach_keys f ks' a
      end
  end.

Definition connectedClients_forEach {A} (f : ClientInfo -> string -> A -> M A) (a : A) : M A :=
  s <- get_state ;;
  forEach_keys f (Map.keys (connectedClients s)) a.

(** *** The liveness sweeper: the callback of [pingInterval] *)

Definition sweep_client (client : ClientInfo) (clientId : string) (_ : unit) : M unit :=
  if negb (isAlive client) then cleanupClient clientId
  else
    modify (with_clients
      (Map.set clientId
         (mkClientInfo (ws client) (connectedAt client) (lastPing client) false))) ;;
    try_catch (ws_ping (ws client)) (fun _ => cleanupClient clientId).

Definition pingInterval_callback : M unit :=
  connectedClients_forEach sweep_client tt.

(** *** The broadcaster *)

Definition broadcast_client (message : string)
    (client : ClientInfo) (clientId : string) (failedClients : StrSet.t) : M StrSet.t :=
  if ReadyState_eqb (readyState (ws client)) OPEN then
    try_catch (ws_send (ws client) message ;; ret failedClients)
              (fun _ => ret (StrSet.add clientId failedClients))
  else ret (StrSet.add clientId failedClients).

Fixpoint cleanup_all (failedClients : list string) : M unit :=
  match failedClients with
  | [] => ret tt
  | clientId :: rest => cleanupClient clientId ;; cleanup_all rest
  end.

Definition broadcastData (data : value) : M unit :=
  s <- get_state ;;
  if Nat.eqb (Map.size (connectedClients s)) 0 then ret tt
  else
    emit (Stringify data) ;;
    let message := JSON_stringify data in
    failedClients <- connectedClients_forEach (broadcast_client message) [] ;;
    cleanup_all failedClients.

(** *** [POST /api/data] *)

(** [!data || !data.timestamp || !Array.isArray(data.harmonic)]. *)
Definition invalid (data : value) : M bool :=
  if negb (Js.truthy data) then ret true
  else
    timestamp <- member data "timestamp" ;;
    if negb (Js.truthy timestamp) then ret true
    else
      harmonic <- member data "harmonic" ;;
      ret (negb (Js.isArray harmonic)).

(** [Array.isArray(v) ? v : []]. *)
Definition array_or_empty (v : value) : value :=
  if Js.isArray v then v else VArr [].

Definition storedData_of (data : value) (now : float) : M object :=
  timestamp <- member data "timestamp" ;;
  volt <- member data "volt" ;;
  current <- member data "current" ;;
  power <- member data "power" ;;
  harmonic <- member data "harmonic" ;;
  events <- member data "events" ;;
  ret [ ("timestamp", timestamp);
        ("volt", array_or_empty volt);
        ("current", array_or_empty current);
        ("power", array_or_empty power);
        ("harmonic", harmonic);
        ("events", array_or_empty events);
        ("receivedAt", VNum now) ].

(** [req.body] is [data]; [now1] is read for [receivedAt], [now2] by
    [DataBuffer.push]. *)
Definition post_api_data (data : value) (now1 now2 : float) : M response :=
  try_catch
    (bad <- invalid data ;;
     if bad then
       ret (mkResponse 400 (VObj [("error", VStr "Invalid data format")]))
     else
       storedData <- storedData_of data now1 ;;
       modify (fun s => with_dataPoints (DataBuffer_push storedData now2 (dataPoints s)) s) ;;
       modify (with_immediates (fun q => q ++ [storedData])) ;;
       timestamp <- member data "timestamp" ;;
       s <- get_state ;;
       ret (mkResponse 200
              (VObj [ ("status", VStr "success");
                      ("timestamp", timestamp);
                      ("clientCount",
                       VNum (Js.number_of_nat (Map.size (connectedClients s)))) ])))
    (fun _ => ret (mkResponse 500 (VObj [("error", VStr "Internal server error")]))).

(** The callback handed to [setImmediate], when its turn comes:
    [try { broadcastData(storedData) } catch (error) { ... }]. *)
Definition run_immediate : M unit :=
  s <- get_state ;;
  match immediates s with
  | [] => ret tt
  | storedData :: rest =>
      modify (with_immediates (fun _ => rest)) ;;
      try_catch (broadcastData (VObj storedData)) (fun _ => ret tt)
  end.

(** *** The latest-sample endpoints *)

Definition getLatest : M (list object) :=
  s <- get_state ;;
  ret (DataBuffer_getLatest (dataPoints s)).

Definition array_of (items : list object) : value := VArr (map VObj items).

(** [item && item.timestamp && Array.isArray(item.harmonic) &&
    item.harmonic.length > 0]. *)
Definition valid_item (item : object) : bool :=
  Js.truthy (VObj item)
  && Js.truthy (Js.obj_get "timestamp" item)
  && Js.isArray (Js.obj_get "harmonic" item)
  && Js.nonempty (Js.obj_get "harmonic" item).

Definition get_api_data : M response :=
  try_catch
    (data <- getLatest ;;
     if Nat.eqb (length data) 0 then ret (mkResponse 200 (VArr []))
     else
       let validData := filter valid_item data in
       if Nat.eqb (length validData) 0 then ret (mkResponse 200 (VArr []))
       else ret (mkResponse 200 (array_of validData)))
    (fun err => ret (mkResponse 500
       (VObj [ ("status", VStr "error");
               ("message", VStr "Internal server error");
               ("error", VStr err) ]))).

(** An endpoint that serves [data.map(item => ({ k: item.k, ... }))]. *)
Definition project (fields : list string) (item : object) : object :=
  map (fun k => (k, Js.obj_get k item)) fields.

Definition get_projection (fields : list string) : M response :=
  try_catch
    (data <- getLatest ;;
     if Nat.eqb (length data) 0 then ret (mkResponse 200 (VArr []))
     else ret (mkResponse 200 (array_of (map (project fields) data))))
    (fun _ => ret (mkResponse 500 (VObj [("error", VStr "Internal server error")]))).

Definition get_api_power_quality : M response :=
  get_projection ["timestamp"; "volt"; "current"; "power"].

Definition get_api_harmonics : M response :=
  get_projection ["timestamp"; "harmonic"].

Definition get_api_events : M response :=
  get_projection ["timestamp"; "events"].

(** *** The event loop *)

Inductive event : Type :=
| Connection (rnd : string) (w : WebSocket) (now1 now2 : float)
| Pong (clientId : string) (now : float)
| Error (clientId : string)
| Close (clientId : string)
| PingInterval
| PostData (data : value) (now1 now2 : float)
| Immediate
| MemoryInterval (heapUsed : N).

Definition handle (e : event) : M unit :=
  match e with
  | Connection rnd w now1 now2 => on_connection rnd w now1 now2
  | Pong clientId now => on_pong clientId now
  | Error clientId => on_error clientId
  | Close clientId => on_close clientId
  | PingInterval => pingInterval_callback
  | PostData data now1 now2 => _ <- post_api_data data now1 now2 ;; ret tt
  | Immediate => run_immediate
  | MemoryInterval heapUsed =>
      if (500 * 1024 * 1024 <? heapUsed)%N
      then modify (fun s => with_dataPoints (DataBuffer_clear (dataPoints s)) s)
      else ret tt
  end.

Definition step (e : event) (s : Server) : Server := snd (handle e s).

Definition run (tr : list event) (s : Server) : Server :=
  fold_left (fun s e => step e s) tr s.

End Handlers.

(** * Closed forms used in the statements *)

(** What [cleanupClient] does to an entry that is there: one [terminate],
    whatever its outcome, then the deletion. *)
Definition terminated (clientId : string) (client : ClientInfo) (s : Server) : Server :=
  mkServer (Map.delete clientId (connectedClients s)) (dataPoints s) (immediates s)
           (effects s ++ [WsTerminate (ws client) (negb (terminate_throws (ws client)))]).


(** [data.k] as a value, for a payload that is neither [undefined] nor
    [null]. *)
Definition field (data : value) (k : string) : value :=
  match data with
  | VObj o => Js.obj_get k o
  | _ => VUndefined
  end.

(** The guard of [POST /api/data], read off its three disjuncts. *)
Definition rejected (data : value) : bool :=
  negb (Js.truthy data)
  || negb (Js.truthy (field data "timestamp"))
  || negb (Js.isArray (field data "harmonic")).

(** [storedData] of [POST /api/data]. *)
Definition sample_of (data : value) (now : float) : object :=
  [ ("timestamp", field data "timestamp");
    ("volt", array_or_empty (field data "volt"));
    ("current", array_or_empty (field data "current"));
    ("power", array_or_empty (field data "power"));
    ("harmonic", field data "harmonic");
    ("events", array_or_empty (field data "events"));
    ("receivedAt", VNum now) ].

(** What [DataBuffer.push] makes of it. *)
Definition stored_sample (data : value) (now1 now2 : float) : object :=
  sample_of data now1 ++ [("storedAt", VNum now2)].

(** The server after an accepted [POST /api/data]. *)
Definition accepted (data : value) (now1 now2 : float) (s : Server) : Server :=
  mkServer (connectedClients s)
           (mkDataBuffer (Some (stored_sample data now1 now2)))
           (immediates s ++ [sample_of data now1])
           (effects s).

Definition InvalidPayload : response :=
  mkResponse 400 (VObj [("error", VStr "Invalid data format")]).

Definition success (data : value) (s : Server) : response :=
  mkResponse 200
    (VObj [ ("status", VStr "success");
            ("timestamp", field data "timestamp");
            ("clientCount", VNum (Js.number_of_nat (Map.size (connectedClients s)))) ]).

(** The validation gate in the specification's words: a payload is invalid
    when it is structurally absent, when it lacks a [timestamp] (any scalar
    counts as carrying one; [null] is taken as lacking, as the
    specification's own example has it), or when [harmonic] is not an
    array. *)
Definition spec_lacks_timestamp (data : value) : bool :=
  match field data "timestamp" with
  | VUndefined | VNull => true
  | _ => false
  end.

Definition spec_invalid (data : value) : bool :=
  match data with
  | VUndefined | VNull => true
  | _ => spec_lacks_timestamp data || negb (Js.isArray (field data "harmonic"))
  end.

(** The scenario payload, with [h] for its harmonic values. *)
Definition scenario (h : list value) : object :=
  [ ("timestamp", VNum 1000);
    ("volt", VArr [VNum 120; VNum 121; VNum 119; VNum 0]);
    ("current", VArr [VNum 10; VNum 10; VNum 10; VNum 0]);
    ("power", VArr [VNum 50; VNum 10; VNum 52]);
    ("harmonic", VArr h);
    ("events", VArr []) ].

(** [{timestamp: 5, harmonic: [], volt: "not-an-array"}]. *)
Definition degraded : value :=
  VObj [ ("timestamp", VNum 5); ("harmonic", VArr []); ("volt", VStr "not-an-array") ].

(** Two samples that differ in every reading. *)
Definition sample_a : value :=
  VObj [ ("timestamp", VNum 1); ("volt", VArr [VNum 230]); ("current", VArr [VNum 5]);
         ("power", VArr [VNum 1150]); ("harmonic", VArr [VNum 3]); ("events", VArr []) ].

Definition sample_b : value :=
  VObj [ ("timestamp", VNum 2); ("volt", VArr [VNum 231]); ("current", VArr [VNum 6]);
         ("power", VArr [VNum 1386]); ("harmonic", VArr [VNum 4]); ("events", VArr [VNum 1]) ].

(** [{timestamp: 0, harmonic: []}]. *)
Definition epoch_payload : value :=
  VObj [ ("timestamp", VNum 0); ("harmonic", VArr []) ].

(** The server after further calls [es] have left the process. *)
Definition add_effects (es : list effect) (s : Server) : Server :=
  mkServer (connectedClients s) (dataPoints s) (immediates s) (effects s ++ es).

(** A client the broadcast pass marks: not open, or its [send] throws. *)
Definition undelivered (client : ClientInfo) : bool :=
  negb (ReadyState_eqb (readyState (ws client)) OPEN) || send_throws (ws client).

(** [failedClients] after the pass over the entries [m], starting from [acc]. *)
Fixpoint failed_of (m : Map.t ClientInfo) (acc : StrSet.t) : StrSet.t :=
  match m with
  | [] => acc
  | (k, c) :: m' => failed_of m' (if undelivered c then StrSet.add k acc else acc)
  end.

(** The [send] calls of the pass over the entries [m], in order. *)
Definition attempts (message : string) (m : Map.t ClientInfo) : list effect :=
  flat_map (fun kc : string * ClientInfo =>
              if ReadyState_eqb (readyState (ws (snd kc))) OPEN
              then [WsSend (ws (snd kc)) message (negb (send_throws (ws (snd kc))))]
              else []) m.

Definition is_send (e : effect) : bool :=
  match e with WsSend _ _ _ => true | _ => false end.

Definition is_stringify (e : effect) : bool :=
  match e with Stringify _ => true | _ => false end.

Definition is_terminate (e : effect) : bool :=
  match e with WsTerminate _ _ => true | _ => false end.

Definition all_open (m : Map.t ClientInfo) : Prop :=
  Forall (fun kc : string * ClientInfo => readyState (ws (snd kc)) = OPEN) m.

(** What one sweep makes of an entry: gone when it was not alive or its
    [ping] throws, otherwise kept with [isAlive] cleared. *)
Definition swept (client : ClientInfo) : option ClientInfo :=
  if isAlive client && negb (ping_throws (ws client))
  then Some (mkClientInfo (ws client) (connectedAt client) (lastPing client) false)
  else None.

Definition swept_entry (o : option ClientInfo) : option ClientInfo :=
  match o with
  | Some client => swept client
  | None => None
  end.

Definition is_sweep (e : event) : bool :=
  match e with PingInterval => true | _ => false end.

(** The sweep cycles of a trace. *)
Definition sweeps (tr : list event) : nat := length (filter is_sweep tr).

(** Events that renew the entry under [clientId]: its ['pong'], and a new
    connection that is given the same id. *)
Definition renews (clientId : string) (e : event) : bool :=
  match e with
  | Pong k _ => String.eqb k clientId
  | Connection rnd _ _ _ => String.eqb (Js.substring_from 7 rnd) clientId
  | _ => false
  end.

(** No acknowledgment for [clientId] anywhere in the trace. *)
Definition never_acks (clientId : string) (tr : list event) : bool :=
  forallb (fun e => negb (renews clientId e)) tr.

(** A trace of sweep cycles and acknowledgments only. *)
Definition sweeps_and_pongs (tr : list event) : bool :=
  forallb (fun e => match e with PingInterval | Pong _ _ => true | _ => false end) tr.

(** [clientId] acknowledges before every sweep of the trace: [acked] says
    whether it has done so since the last sweep. *)
Fixpoint acks_every_cycle (clientId : string) (acked : bool) (tr : list event) : bool :=
  match tr with
  | [] => true
  | PingInterval :: tr' => acked && acks_every_cycle clientId false tr'
  | Pong k _ :: tr' =>
      acks_every_cycle clientId (String.eqb k clientId || acked) tr'
  | _ :: tr' => acks_every_cycle clientId acked tr'
  end.

(** Sweeps an entry still has to see before it is gone when nothing
    renews it. *)
Definition strikes_left (o : option ClientInfo) : nat :=
  match o with
  | None => 0
  | Some client => if isAlive client then 2 else 1
  end.

(** Sample transports and registries. *)
Definition open_socket (n : nat) : WebSocket := mkWebSocket n OPEN false false false.

Definition broken_socket (n : nat) : WebSocket := mkWebSocket n OPEN true false true.

Definition three_clients : Server :=
  mkServer [ ("a", mkClientInfo (open_socket 1) 10 10 true);
             ("b", mkClientInfo (broken_socket 2) 11 11 true);
             ("c", mkClientInfo (open_socket 3) 12 12 true) ]
           (mkDataBuffer None) [] [].

(** A serializer to run the broadcaster with; the properties of the
    broadcaster are proved for every serializer. *)
Definition any_serializer (v : value) : string := "{}".

(** * Further handlers and closed forms *)

(** ** Shutdown *)

(** The registry part of the [SIGTERM] handler:
    [connectedClients.forEach((client, clientId) => cleanupClient(clientId))].
    Its [clearInterval] and [server.close] act on the timer and the listener,
    which are outside the server's globals. *)
Definition sigterm_cleanup : M unit :=
  connectedClients_forEach (fun (_ : ClientInfo) clientId (_ : unit) => cleanupClient clientId) tt.

(** ** The sweep, entry by entry *)

(** The transport calls one sweep makes on an entry. *)
Definition sweep_entry_effects (client : ClientInfo) : list effect :=
  if isAlive client then
    if ping_throws (ws client)
    then [ WsPing (ws client) false;
           WsTerminate (ws client) (negb (terminate_throws (ws client))) ]
    else [ WsPing (ws client) true ]
  else [ WsTerminate (ws client) (negb (terminate_throws (ws client))) ].

Definition sweep_effects (m : Map.t ClientInfo) : list effect :=
  flat_map (fun kc : string * ClientInfo => sweep_entry_effects (snd kc)) m.

(** The registry one sweep leaves. *)
Fixpoint swept_registry (m : Map.t ClientInfo) : Map.t ClientInfo :=
  match m with
  | [] => []
  | (k, client) :: m' =>
      match swept client with
      | Some client' => (k, client') :: swept_registry m'
      | None => swept_registry m'
      end
  end.

(** ** The broadcast, entry by entry *)

Definition delivered_entry (kc : string * ClientInfo) : bool := negb (undelivered (snd kc)).

Definition undelivered_entry (kc : string * ClientInfo) : bool := undelivered (snd kc).

Definition terminate_effect (kc : string * ClientInfo) : effect :=
  WsTerminate (ws (snd kc)) (negb (terminate_throws (ws (snd kc)))).

(** The transport calls of one broadcast of [data] over the registry [m]. *)
Definition broadcast_effects (JSON_stringify : value -> string) (data : value)
    (m : Map.t ClientInfo) : list effect :=
  match m with
  | [] => []
  | _ :: _ =>
      Stringify data
        :: attempts (JSON_stringify data) m
        ++ map terminate_effect (filter undelivered_entry m)
  end.

(** A registry on which a broadcast evicts nobody. *)
Definition healthy (m : Map.t ClientInfo) : Prop :=
  forall kc, In kc m -> undelivered (snd kc) = false.

(** A post that [POST /api/data] accepts, with its two clock readings. *)
Definition post_event (p : value * float * float) : event :=
  match p with (data, now1, now2) => PostData data now1 now2 end.

Definition posted_sample (p : value * float * float) : object :=
  match p with (data, now1, _) => sample_of data now1 end.

Definition is_connection (e : event) : bool :=
  match e with Connection _ _ _ _ => true | _ => false end.

Definition touches_store (e : event) : bool :=
  match e with PostData _ _ _ | MemoryInterval _ => true | _ => false end.

(** [h] answers 200 with an array of at most one element and leaves the
    server as it was. *)
Definition serves_latest (h : M response) (s : Server) : Prop :=
  exists items,
    h s = (Normal (mkResponse 200 (VArr items)), s) /\ length items <= 1.

(** [h] answers 200 with the empty array. *)
Definition serves_nothing (h : M response) (s : Server) : Prop :=
  h s = (Normal (mkResponse 200 (VArr [])), s).

(** The calls of a broadcast of [data] that evicts nobody. *)
Definition plain_broadcast_effects (JSON_stringify : value -> string) (data : value)
    (m : Map.t ClientInfo) : list effect :=
  match m with
  | [] => []
  | _ :: _ => Stringify data :: attempts (JSON_stringify data) m
  end.

(** The store after the accepted posts [ps], in order. *)
Definition store_after (ps : list (value * float * float)) (d : DataBuffer) : DataBuffer :=
  fold_left
    (fun (_ : DataBuffer) (p : value * float * float) =>
       match p with
       | (data, now1, now2) => mkDataBuffer (Some (stored_sample data now1 now2))
       end)
    ps d.

Definition all_accepted (ps : list (value * float * float)) : bool :=
  forallb (fun p : value * float * float => negb (rejected (fst (fst p)))) ps.

Definition two_clients : Server :=
  mkServer [ ("a", mkClientInfo (open_socket 1) 10 10 true);
             ("c", mkClientInfo (open_socket 3) 12 12 true) ]
           (mkDataBuffer None) [] [].

(** * The page scripts

    The scripts the pages carry, run by the browser: the retrying fetch, the
    polling timer and the fetch throttle (the same text in the three pages),
    and the range selection of the harmonics page. Times and delays are
    whole milliseconds, modelled by [N]. *)

Module Client.

(** ** [fetchWithRetry] *)

(** What one call of [fetch] comes to: it rejects, or it resolves to a
    response with its [ok] flag, its [status], and what [response.json()]
    settles to. *)
Inductive fetched : Type :=
| Rejected (err : string)
| Responded (ok : bool) (status : nat) (json : completion value).

(** What the [catch] clause catches: the rejection of [fetch], the
    [Error] made for a response that is not [ok] (its message is built
    from [status]), or the rejection of [response.json()]. *)
Inductive failure : Type :=
| NetworkFailure (err : string)
| HttpError (status : nat)
| BadJson (err : string).

(** How the returned promise settles; [Rejects None] is a rejection with
    [undefined], the value of [lastError] when no attempt was made. *)
Inductive settled : Type :=
| Resolves (v : value)
| Rejects (lastError : option failure).

(** What the function asks of the browser, in order. *)
Inductive call : Type :=
| Fetch (url : string) (options : value)
| Wait (ms : N).

(** The body of the [try] block on what [fetch] came to. *)
Definition attempt (f : fetched) : value + failure :=
  match f with
  | Rejected err => inr (NetworkFailure err)
  | Responded false status _ => inr (HttpError status)
  | Responded true _ (Normal v) => inl v
  | Responded true _ (Throw err) => inr (BadJson err)
  end.

(** The [for] loop from [i] on, with [remaining] iterations to go;
    [net i] is what the [i]-th call of [fetch] comes to. *)
Fixpoint retry (net : nat -> fetched) (url : string) (options : value)
    (remaining i : nat) (lastError : option failure) (log : list call)
  : settled * list call :=
  match remaining with
  | 0 => (Rejects lastError, log)
  | S remaining' =>
      match attempt (net i) with
      | inl v => (Resolves v, log ++ [Fetch url options])
      | inr error =>
          retry net url options remaining' (S i) (Some error)
                (log ++ [Fetch url options; Wait (1000 * 2 ^ N.of_nat i)])
      end
  end.

(** [maxRetries] is the count of iterations; callers leave it at its
    default, 3. *)
Definition fetchWithRetry (net : nat -> fetched) (url : string) (options : value)
    (maxRetries : nat) : settled * list call :=
  retry net url options maxRetries 0 None [].

Definition default_maxRetries : nat := 3.

Definition fetches (log : list call) : nat :=
  length (filter (fun c => match c with Fetch _ _ => true | Wait _ => false end) log).

Fixpoint waited (log : list call) : N :=
  match log with
  | [] => 0
  | Wait ms :: log' => ms + waited log'
  | Fetch _ _ :: log' => waited log'
  end.

(** A failed attempt at index [i], with the wait that follows it. *)
Definition failed_attempt (url : string) (options : value) (i : nat) : list call :=
  [Fetch url options; Wait (1000 * 2 ^ N.of_nat i)].

(** ** Polling *)

(** The script's [updateInterval] ([None] for [undefined] and [null]), the
    interval timers it has running with their periods, and the handle the
    next [setInterval] returns. Handles are positive integers. *)
Record Poller : Type := mkPoller {
  updateInterval : option positive;
  intervals : list (positive * N);
  next_handle : positive
}.

Definition page_load : Poller := mkPoller None [] 1%positive.

Definition startPolling (p : Poller) : Poller :=
  match updateInterval p with
  | None =>
      mkPoller (Some (next_handle p))
               (intervals p ++ [(next_handle p, 500%N)])
               (Pos.succ (next_handle p))
  | Some _ => p
  end.

Definition clearInterval (h : positive) (l : list (positive * N)) : list (positive * N) :=
  filter (fun t => negb (Pos.eqb (fst t) h)) l.

Definition stopPolling (p : Poller) : Poller :=
  match updateInterval p with
  | Some h => mkPoller None (clearInterval h (intervals p)) (next_handle p)
  | None => p
  end.

Inductive polling_call : Type := Start | Stop.

Definition poll (p : Poller) (c : polling_call) : Poller :=
  match c with
  | Start => startPolling p
  | Stop => stopPolling p
  end.

(** The timers running are the one [updateInterval] holds, if any. *)
Definition one_timer (p : Poller) : Prop :=
  intervals p = match updateInterval p with
                | Some h => [(h, 500%N)]
                | None => []
                end.

(** ** The fetch throttle *)

(** [fetchInProgress] and [lastFetchTime] of the script, and the count of
    requests that [fetchData] has started and that have not settled. *)
Record Throttle : Type := mkThrottle {
  fetchInProgress : bool;
  lastFetchTime : N;
  in_flight : nat
}.

Definition MIN_FETCH_INTERVAL : N := 100.

Definition throttle_start : Throttle := mkThrottle false 0 0.

(** [Date.now() - lastFetchTime < MIN_FETCH_INTERVAL]: the difference is
    negative when the clock is behind [lastFetchTime]. *)
Definition too_soon (now : N) (t : Throttle) : bool :=
  (Z.of_N now - Z.of_N (lastFetchTime t) <? Z.of_N MIN_FETCH_INTERVAL)%Z.

(** [fetchData] up to its [await]: whether it went on to fetch. *)
Definition fetchData_enter (now : N) (t : Throttle) : bool * Throttle :=
  if fetchInProgress t || too_soon now t then (false, t)
  else (true, mkThrottle true (lastFetchTime t) (S (in_flight t))).

(** The [finally] block, run when the request of a started [fetchData]
    has settled. *)
Definition fetchData_finally (now : N) (t : Throttle) : Throttle :=
  mkThrottle false now (pred (in_flight t)).

(** The calls of [fetchData] and the settling of its requests, each with
    the clock reading taken there. A request settles only when one is in
    flight. *)
Inductive fetch_event : Type :=
| Called (now : N)
| Settled (now : N).

Definition fetch_step (t : Throttle) (e : fetch_event) : Throttle :=
  match e with
  | Called now => snd (fetchData_enter now t)
  | Settled now => match in_flight t with
                   | 0 => t
                   | S _ => fetchData_finally now t
                   end
  end.

(** The requests in flight are the one [fetchInProgress] tells of, if any. *)
Definition one_request (t : Throttle) : Prop :=
  in_flight t = if fetchInProgress t then 1 else 0.

(** ** Range selection on the harmonics page *)

Record Range : Type := mkRange {
  range_start : N;
  range_end : N;
  title : string;
  color : string
}.

Definition ranges : list Range :=
  [ mkRange 0 100 "Voltage A" "#FF6B6B";
    mkRange 100 200 "Voltage B" "#4ECDC4";
    mkRange 200 300 "Voltage C" "#45B7D1";
    mkRange 300 400 "Voltage N" "#96CEB4";
    mkRange 400 500 "Current A" "#FFBE0B";
    mkRange 500 600 "Current B" "#FF006E";
    mkRange 600 700 "Current C" "#8338EC";
    mkRange 700 800 "Current N" "#3A86FF" ].

(** [selectRange(index)] for an integer [index]: the new [currentRange]
    and whether [fetchData] is called. *)
Definition selectRange (index : Z) (currentRange : Z) : Z * bool :=
  if (index <? 0)%Z || (Z.of_nat (length ranges) <=? index)%Z
  then (currentRange, false)
  else (index, true).

(** [a.slice(start, end)] for [0 <= start <= end]. *)
Definition slice {A} (start stop : N) (a : list A) : list A :=
  firstn (N.to_nat (stop - start)) (skipn (N.to_nat start) a).

(** [Array.from({length: n}, (_, i) => i + start + 1)]. *)
Definition labels (start : N) (n : N) : list N :=
  map (fun i => N.of_nat i + start + 1)%N (seq 0 (N.to_nat n)).

(** The [x] and [y] of the trace [updateChart] draws for [range]. *)
Definition chart_x (range : Range) : list N :=
  labels (range_start range) (range_end range - range_start range).

Definition chart_y (harmonicData : list value) (range : Range) : list value :=
  slice (range_start range) (range_end range) harmonicData.

End Client.

(** A network that is down, then answers 503, then answers with JSON. *)
Definition flaky (i : nat) : Client.fetched :=
  match i with
  | 0 => Client.Rejected "down"
  | 1 => Client.Responded false 503 (Normal VNull)
  | _ => Client.Responded true 200 (Normal (VArr []))
  end.

(** A network on which every request fails. *)
Definition unreachable (i : nat) : Client.fetched := Client.Rejected "down".

(** * Properties *)

(** ** The insertion-ordered map *)

Section MapFacts.
Context {V : Type}.
Implicit Types (m : Map.t V) (k : string) (v : V).

Lemma Map_get_set_same k v m : Map.get k (Map.set k v m) = Some v.
Proof.
  induction m as [|[k' v'] m IH]; simpl.
  - now rewrite String.eqb_refl.
  - destruct (String.eqb k k') eqn:E; simpl; rewrite ?String.eqb_refl, ?E; auto.
Qed.

Lemma Map_get_set_other k k' v m :
  k <> k' -> Map.get k (Map.set k' v m) = Map.get k m.
Proof.
  intros Hne. induction m as [|[k2 v2] m IH]; simpl.
  - apply String.eqb_neq in Hne. now rewrite Hne.
  - destruct (String.eqb k' k2) eqn:E; simpl.
    + apply String.eqb_eq in E. subst k2.
      apply String.eqb_neq in Hne. now rewrite Hne.
    + now rewrite IH.
Qed.

Lemma Map_get_delete_same k m : Map.get k (Map.delete k m) = None.
Proof.
  induction m as [|[k' v'] m IH]; simpl; auto.
  destruct (String.eqb k k') eqn:E; simpl; rewrite ?E; auto.
Qed.

Lemma Map_get_delete_other k k' m :
  k <> k' -> Map.get k (Map.delete k' m) = Map.get k m.
Proof.
  intros Hne. induction m as [|[k2 v2] m IH]; simpl; auto.
  destruct (String.eqb k' k2) eqn:E; simpl.
  - apply String.eqb_eq in E. subst k2.
    apply String.eqb_neq in Hne. now rewrite Hne.
  - now rewrite IH.
Qed.

Lemma Map_get_None_keys k m : Map.get k m = None <-> ~ In k (Map.keys m).
Proof.
  induction m as [|[k' v'] m IH]; simpl.
  - tauto.
  - destruct (String.eqb k k') eqn:E.
    + apply String.eqb_eq in E. subst. split; [discriminate | tauto].
    + apply String.eqb_neq in E. rewrite IH. split.
      * intros H [H1|H1]; [congruence | tauto].
      * tauto.
Qed.

Lemma Map_get_Some_keys k v m : Map.get k m = Some v -> In k (Map.keys m).
Proof.
  intros H. destruct (in_dec string_dec k (Map.keys m)) as [Hin|Hn]; auto.
  apply Map_get_None_keys in Hn. congruence.
Qed.

Lemma Map_delete_absent k m : Map.get k m = None -> Map.delete k m = m.
Proof.
  induction m as [|[k' v'] m IH]; simpl; auto.
  destruct (String.eqb k k'); [discriminate|]. intros H. now rewrite IH.
Qed.

Lemma Map_keys_set_present k v v' m :
  Map.get k m = Some v' -> Map.keys (Map.set k v m) = Map.keys m.
Proof.
  induction m as [|[k2 v2] m IH]; simpl; [discriminate|].
  destruct (String.eqb k k2) eqn:E; simpl.
  - apply String.eqb_eq in E. now subst.
  - intros H. f_equal. now apply IH.
Qed.

Lemma Map_keys_set_absent k v m :
  Map.get k m = None -> Map.set k v m = m ++ [(k, v)].
Proof.
  induction m as [|[k2 v2] m IH]; simpl; auto.
  destruct (String.eqb k k2); [discriminate|]. intros H. now rewrite IH.
Qed.

Lemma Map_size_set_present k v v' m :
  Map.get k m = Some v' -> Map.size (Map.set k v m) = Map.size m.
Proof.
  intros H. unfold Map.size.
  rewrite <- (length_map fst), <- (length_map fst m).
  change (length (Map.keys (Map.set k v m)) = length (Map.keys m)).
  now rewrite (Map_keys_set_present k v v' m H).
Qed.

Lemma Map_keys_delete_incl k k' m :
  In k (Map.keys (Map.delete k' m)) -> In k (Map.keys m).
Proof.
  induction m as [|[k2 v2] m IH]; simpl; auto.
  destruct (String.eqb k' k2); simpl; intuition.
Qed.

Lemma Map_wf_delete k m : Map.wf m -> Map.wf (Map.delete k m).
Proof.
  unfold Map.wf. induction m as [|[k2 v2] m IH]; simpl; auto.
  intros H. inversion H as [|? ? Hn Hd]; subst.
  destruct (String.eqb k k2); simpl; auto.
  constructor; auto. intros Hin. apply Hn. eapply Map_keys_delete_incl; eauto.
Qed.

Lemma Map_wf_set k v m : Map.wf m -> Map.wf (Map.set k v m).
Proof.
  intros H. destruct (Map.get k m) as [v'|] eqn:E.
  - unfold Map.wf. now rewrite (Map_keys_set_present k v v' m E).
  - rewrite (Map_keys_set_absent _ _ _ E). unfold Map.wf, Map.keys.
    rewrite map_app. simpl. apply NoDup_app; auto.
    + repeat constructor. simpl. tauto.
    + intros x Hx [Hy|[]]. subst x.
      apply Map_get_None_keys in E. auto.
Qed.

Lemma Map_size_delete_present k v m :
  Map.wf m -> Map.get k m = Some v -> S (Map.size (Map.delete k m)) = Map.size m.
Proof.
  unfold Map.wf, Map.size. induction m as [|[k2 v2] m IH]; simpl; [discriminate|].
  intros H. inversion H as [|? ? Hn Hd]; subst.
  destruct (String.eqb k k2) eqn:E.
  - intros _. apply String.eqb_eq in E. subst k2.
    apply Map_get_None_keys in Hn. now rewrite (Map_delete_absent _ _ Hn).
  - intros Hg. simpl. f_equal. now apply IH.
Qed.

Lemma Map_wfb_wf m : Map.wfb m = true -> Map.wf m.
Proof.
  unfold Map.wf. induction m as [|[k v] m IH]; simpl.
  - constructor.
  - intros H. apply andb_prop in H. destruct H as [H1 H2].
    constructor; auto.
    clear - H1. intros Hin.
    assert (Hm : Map.mem k (Map.keys m) = true).
    { clear H1. induction (Map.keys m) as [|x l IHl]; simpl in *; [tauto|].
      destruct Hin as [->|Hin]; [now rewrite String.eqb_refl|].
      rewrite IHl; auto. apply orb_true_r. }
    now rewrite Hm in H1.
Qed.

End MapFacts.

(** ** Removal from the registry *)

Ltac unfold_m :=
  unfold bind, ret, throw, try_catch, get_state, modify, emit in *.

Lemma cleanupClient_present clientId client s :
  Map.get clientId (connectedClients s) = Some client ->
  cleanupClient clientId s = (Normal tt, terminated clientId client s).
Proof.
  intros H. unfold cleanupClient, ws_terminate, terminated, with_clients.
  unfold_m. rewrite H.
  destruct (terminate_throws (ws client)); reflexivity.
Qed.

Lemma cleanupClient_absent clientId s :
  Map.get clientId (connectedClients s) = None ->
  cleanupClient clientId s = (Normal tt, s).
Proof.
  intros H. unfold cleanupClient. unfold_m. now rewrite H.
Qed.

Lemma cleanupClient_removes clientId s :
  Map.get clientId (connectedClients (snd (cleanupClient clientId s))) = None.
Proof.
  destruct (Map.get clientId (connectedClients s)) as [c|] eqn:E.
  - rewrite (cleanupClient_present _ _ _ E). simpl. apply Map_get_delete_same.
  - now rewrite (cleanupClient_absent _ _ E).
Qed.

Lemma cleanupClient_normal clientId s :
  fst (cleanupClient clientId s) = Normal tt.
Proof.
  destruct (Map.get clientId (connectedClients s)) as [c|] eqn:E.
  - now rewrite (cleanupClient_present _ _ _ E).
  - now rewrite (cleanupClient_absent _ _ E).
Qed.

Lemma cleanupClient_other clientId k s :
  k <> clientId ->
  Map.get k (connectedClients (snd (cleanupClient clientId s)))
  = Map.get k (connectedClients s).
Proof.
  intros Hne. destruct (Map.get clientId (connectedClients s)) as [c|] eqn:E.
  - rewrite (cleanupClient_present _ _ _ E). simpl. now apply Map_get_delete_other.
  - now rewrite (cleanupClient_absent _ _ E).
Qed.

(** C6. Removal is idempotent and never throws: [cleanupClient] completes
    normally on every registry, also when the transport's [terminate]
    throws; a second call right after the first changes nothing (registry,
    size and transport calls included); and on an id that is not in the
    registry the call changes nothing at all. *)
Theorem cleanupClient_idempotent (clientId : string) (s : Server) :
  (exists s1,
      cleanupClient clientId s = (Normal tt, s1)
      /\ Map.get clientId (connectedClients s1) = None
      /\ cleanupClient clientId s1 = (Normal tt, s1)
      /\ Map.size (connectedClients (snd (cleanupClient clientId s1)))
         = Map.size (connectedClients s1))
  /\ (Map.get clientId (connectedClients s) = None ->
      cleanupClient clientId s = (Normal tt, s)).
Proof.
  split.
  - exists (snd (cleanupClient clientId s)).
    pose proof (cleanupClient_normal clientId s) as Hn.
    pose proof (cleanupClient_removes clientId s) as Hr.
    destruct (cleanupClient clientId s) as [r s1] eqn:E. simpl in *. subst r.
    rewrite (cleanupClient_absent _ _ Hr). auto.
  - apply cleanupClient_absent.
Qed.

(** ** Acknowledgments *)

Lemma on_pong_absent clientId now s :
  Map.get clientId (connectedClients s) = None ->
  on_pong clientId now s = (Normal tt, s).
Proof.
  intros H. unfold on_pong. unfold_m. now rewrite H.
Qed.

(** C10. A ['pong'] for a client id that is not in the registry completes
    normally and leaves the server, registry contents and size included,
    as it was: no entry is put back. *)
Theorem on_pong_absent_noop (clientId : string) (now : float) (s : Server) :
  Map.get clientId (connectedClients s) = None ->
  on_pong clientId now s = (Normal tt, s)
  /\ connectedClients (snd (on_pong clientId now s)) = connectedClients s
  /\ Map.size (connectedClients (snd (on_pong clientId now s)))
     = Map.size (connectedClients s)
  /\ Map.get clientId (connectedClients (snd (on_pong clientId now s))) = None.
Proof.
  intros H. rewrite (on_pong_absent clientId now s H). auto.
Qed.

Lemma on_pong_present clientId now client s :
  Map.get clientId (connectedClients s) = Some client ->
  on_pong clientId now s
  = (Normal tt,
     with_clients
       (Map.set clientId (mkClientInfo (ws client) (connectedAt client) now true)) s).
Proof.
  intros H. unfold on_pong. unfold_m. now rewrite H.
Qed.

(** ** [POST /api/data] *)

Lemma post_api_data_eq data now1 now2 s :
  post_api_data data now1 now2 s
  = if rejected data
    then (Normal InvalidPayload, s)
    else (Normal (success data s), accepted data now1 now2 s).
Proof.
  unfold post_api_data, invalid, storedData_of, rejected, accepted, stored_sample,
    sample_of, success, InvalidPayload, with_dataPoints, with_immediates,
    DataBuffer_push.
  destruct data as [| |b|n|str|l|o]; try reflexivity.
  - destruct b; reflexivity.
  - unfold_m. simpl. destruct (is_zero n || is_nan n); reflexivity.
  - unfold_m. simpl. destruct (String.eqb str ""); reflexivity.
  - unfold_m. simpl.
    destruct (Js.truthy (Js.obj_get "timestamp" o)); simpl; [|reflexivity].
    destruct (Js.isArray (Js.obj_get "harmonic" o)); reflexivity.
Qed.

Lemma post_api_data_accepts data now1 now2 s r s' :
  post_api_data data now1 now2 s = (Normal r, s') -> status r = 200 ->
  rejected data = false /\ s' = accepted data now1 now2 s.
Proof.
  rewrite post_api_data_eq. destruct (rejected data); intros H Hs.
  - inversion H; subst. discriminate.
  - inversion H; subst. auto.
Qed.

(** C1. The store is a single slot. When [POST /api/data] accepts A and
    then accepts B, [getLatest()] is the one-element sequence holding the
    sample built from B's fields with its two stamps: its [timestamp] and
    [harmonic] are B's, and so is each of [volt], [current], [power] and
    [events] that B gives as an array. A's stored sample is not in it
    (unless it is the very same value), and in every server state the
    store holds at most one sample. *)
Theorem single_slot (A B : value) (a1 a2 b1 b2 : float) (s s1 s2 : Server)
    (r1 r2 : response) :
  post_api_data A a1 a2 s = (Normal r1, s1) -> status r1 = 200 ->
  post_api_data B b1 b2 s1 = (Normal r2, s2) -> status r2 = 200 ->
  getLatest s2 = (Normal [stored_sample B b1 b2], s2)
  /\ length (DataBuffer_getLatest (dataPoints s2)) = 1
  /\ Js.obj_get "timestamp" (stored_sample B b1 b2) = field B "timestamp"
  /\ Js.obj_get "harmonic" (stored_sample B b1 b2) = field B "harmonic"
  /\ (forall k, In k ["volt"; "current"; "power"; "events"] ->
        Js.isArray (field B k) = true ->
        Js.obj_get k (stored_sample B b1 b2) = field B k)
  /\ (stored_sample A a1 a2 <> stored_sample B b1 b2 ->
      ~ In (stored_sample A a1 a2) (DataBuffer_getLatest (dataPoints s2)))
  /\ (forall s' : Server, length (DataBuffer_getLatest (dataPoints s')) <= 1).
Proof.
  intros HA HsA HB HsB.
  destruct (post_api_data_accepts _ _ _ _ _ _ HB HsB) as [_ ->].
  split; [reflexivity|]. split; [reflexivity|].
  split; [reflexivity|]. split; [reflexivity|]. split; [|split].
  - intros k Hk Harr. unfold array_or_empty.
    simpl in Hk. destruct Hk as [<-|[<-|[<-|[<-|[]]]]];
      simpl; unfold array_or_empty; now rewrite Harr.
  - simpl. intros Hne [Heq|[]]. congruence.
  - intros s'. unfold DataBuffer_getLatest.
    destruct (latestData (dataPoints s')); simpl; lia.
Qed.

(** C2, as amended. [POST /api/data] answers 400 ([InvalidPayload])
    exactly when the payload is falsy, its [timestamp] is missing or falsy
    ([null], [false], [0], [NaN], the empty string), or its [harmonic] is
    not an array. On that answer the server state (store, scheduled
    broadcasts, registry) is unchanged; on every other payload the answer
    is 200, the store holds the new sample and one broadcast is scheduled.
    The handler never answers 500 and never throws. *)
Theorem validation_gate (data : value) (now1 now2 : float) (s : Server) :
  post_api_data data now1 now2 s
  = (if rejected data
     then (Normal InvalidPayload, s)
     else (Normal (success data s), accepted data now1 now2 s))
  /\ (status (if rejected data then InvalidPayload else success data s) = 400
      <-> rejected data = true).
Proof.
  split.
  - apply post_api_data_eq.
  - destruct (rejected data); simpl; split; intros; try reflexivity; discriminate.
Qed.

Lemma single_slot_witness :
  getLatest (accepted sample_b 30 40 (accepted sample_a 10 20 initial))
  = (Normal [stored_sample sample_b 30 40],
     accepted sample_b 30 40 (accepted sample_a 10 20 initial)).
Proof.
  exact (proj1 (single_slot sample_a sample_b 10 20 30 40 initial
                  (accepted sample_a 10 20 initial)
                  (accepted sample_b 30 40 (accepted sample_a 10 20 initial))
                  (success sample_a initial)
                  (success sample_b (accepted sample_a 10 20 initial))
                  eq_refl eq_refl eq_refl eq_refl)).
Defined.

Lemma validation_gate_witness :
  post_api_data (VObj [("timestamp", VNull); ("harmonic", VArr [VNum 1; VNum 2])])
                10 20 initial
  = (Normal InvalidPayload, initial).
Proof.
  exact (proj1 (validation_gate
                  (VObj [("timestamp", VNull); ("harmonic", VArr [VNum 1; VNum 2])])
                  10 20 initial)).
Defined.

(** C2, as stated, fails: [{timestamp: 0, harmonic: []}] is present,
    carries a scalar [timestamp] and an array [harmonic], and is answered
    with [InvalidPayload]. *)
Lemma validation_gate_counterexample :
  ~ (forall (data : value) (now1 now2 : float) (s : Server),
        fst (post_api_data data now1 now2 s) = Normal InvalidPayload
        <-> spec_invalid data = true).
Proof.
  intros H.
  assert (E : spec_invalid epoch_payload = true)
    by (apply (H epoch_payload 10%float 20%float initial); reflexivity).
  discriminate E.
Qed.

(** ** The latest-sample endpoints *)

Lemma getLatest_eq s : getLatest s = (Normal (DataBuffer_getLatest (dataPoints s)), s).
Proof. reflexivity. Qed.

Lemma get_projection_some fields item s :
  latestData (dataPoints s) = Some item ->
  get_projection fields s
  = (Normal (mkResponse 200 (VArr [VObj (project fields item)])), s).
Proof.
  intros H. unfold get_projection, getLatest, DataBuffer_getLatest. unfold_m.
  now rewrite H.
Qed.

Lemma get_projection_none fields s :
  latestData (dataPoints s) = None ->
  get_projection fields s = (Normal (mkResponse 200 (VArr [])), s).
Proof.
  intros H. unfold get_projection, getLatest, DataBuffer_getLatest. unfold_m.
  now rewrite H.
Qed.

Lemma get_api_data_some item s :
  latestData (dataPoints s) = Some item ->
  get_api_data s
  = (Normal (mkResponse 200 (if valid_item item then VArr [VObj item] else VArr [])), s).
Proof.
  intros H. unfold get_api_data, getLatest, DataBuffer_getLatest. unfold_m.
  rewrite H. simpl. destruct (valid_item item); reflexivity.
Qed.

(** C8, as amended. After the scenario payload is posted, whatever its
    harmonic values (forty of them included), [getLatest()] is the
    one-element sequence holding that sample followed by the two stamps
    [receivedAt] and [storedAt] and nothing else, and [/api/power-quality]
    serves one object with the fields [timestamp], [volt], [current] and
    [power] of that sample and no other. *)
Theorem scenario_roundtrip (h : list value) (now1 now2 : float) (s : Server) :
  let s' := snd (post_api_data (VObj (scenario h)) now1 now2 s) in
  fst (post_api_data (VObj (scenario h)) now1 now2 s)
  = Normal (success (VObj (scenario h)) s)
  /\ getLatest s'
     = (Normal [scenario h ++ [("receivedAt", VNum now1); ("storedAt", VNum now2)]], s')
  /\ get_api_power_quality s'
     = (Normal (mkResponse 200
          (VArr [VObj [ ("timestamp", VNum 1000);
                        ("volt", VArr [VNum 120; VNum 121; VNum 119; VNum 0]);
                        ("current", VArr [VNum 10; VNum 10; VNum 10; VNum 0]);
                        ("power", VArr [VNum 50; VNum 10; VNum 52]) ]])), s').
Proof.
  intros s'. subst s'. rewrite post_api_data_eq.
  change (rejected (VObj (scenario h))) with false. cbv iota. simpl fst. simpl snd.
  repeat split.
Qed.

(** C8, as stated, fails: the element [getLatest()] returns is not the
    sample plus [receivedAt] alone; it carries [storedAt] as well. *)
Lemma scenario_roundtrip_counterexample :
  DataBuffer_getLatest
    (dataPoints (snd (post_api_data (VObj (scenario (repeat (VNum 1) 40))) 10 20 initial)))
  <> [scenario (repeat (VNum 1) 40) ++ [("receivedAt", VNum 10)]].
Proof.
  vm_compute. intros H. discriminate H.
Qed.

(** C9, as amended. In every state, a payload with a truthy [timestamp],
    the empty array for [harmonic] and a [volt] that is not an array (such
    as [{timestamp: 5, harmonic: [], volt: "not-an-array"}]) is accepted:
    the answer is 200, the store holds its sample with [volt] the empty
    array and [harmonic] the empty array, and its broadcast is scheduled.
    For every stored sample whose [harmonic] is the empty array,
    [/api/data] serves the empty array, while [/api/power-quality],
    [/api/harmonics] and [/api/events] each serve their projection of that
    sample. *)
Theorem degraded_sample_served :
  (forall (data : value) (now1 now2 : float) (s : Server),
      Js.truthy (field data "timestamp") = true ->
      field data "harmonic" = VArr [] ->
      Js.isArray (field data "volt") = false ->
      post_api_data data now1 now2 s
      = (Normal (success data s), accepted data now1 now2 s)
      /\ DataBuffer_getLatest (dataPoints (accepted data now1 now2 s))
         = [stored_sample data now1 now2]
      /\ Js.obj_get "volt" (stored_sample data now1 now2) = VArr []
      /\ Js.obj_get "harmonic" (stored_sample data now1 now2) = VArr []
      /\ Js.obj_get "timestamp" (stored_sample data now1 now2) = field data "timestamp"
      /\ immediates (accepted data now1 now2 s) = immediates s ++ [sample_of data now1])
  /\ (forall (s : Server) (item : object),
        latestData (dataPoints s) = Some item ->
        Js.obj_get "harmonic" item = VArr [] ->
        get_api_data s = (Normal (mkResponse 200 (VArr [])), s)
        /\ get_api_power_quality s
           = (Normal (mkResponse 200
                (VArr [VObj [ ("timestamp", Js.obj_get "timestamp" item);
                              ("volt", Js.obj_get "volt" item);
                              ("current", Js.obj_get "current" item);
                              ("power", Js.obj_get "power" item) ]])), s)
        /\ get_api_harmonics s
           = (Normal (mkResponse 200
                (VArr [VObj [ ("timestamp", Js.obj_get "timestamp" item);
                              ("harmonic", VArr []) ]])), s)
        /\ get_api_events s
           = (Normal (mkResponse 200
                (VArr [VObj [ ("timestamp", Js.obj_get "timestamp" item);
                              ("events", Js.obj_get "events" item) ]])), s)).
Proof.
  split.
  - intros data now1 now2 s Ht Hh Hv.
    assert (Hacc : rejected data = false).
    { unfold rejected. rewrite Ht, Hh. simpl.
      destruct data; simpl in Ht; try discriminate Ht; reflexivity. }
    rewrite post_api_data_eq, Hacc.
    split; [reflexivity|]. split; [reflexivity|]. split; [|split; [|split]].
    + simpl. unfold array_or_empty. now rewrite Hv.
    + simpl. exact Hh.
    + reflexivity.
    + reflexivity.
  - intros s item Hitem Hh. split; [|split; [|split]].
    + rewrite (get_api_data_some _ _ Hitem). unfold valid_item. rewrite Hh. simpl.
      now rewrite !andb_false_r.
    + unfold get_api_power_quality. now rewrite (get_projection_some _ _ _ Hitem).
    + unfold get_api_harmonics. rewrite (get_projection_some _ _ _ Hitem).
      unfold project. simpl. now rewrite Hh.
    + unfold get_api_events. now rewrite (get_projection_some _ _ _ Hitem).
Qed.

Lemma degraded_sample_served_witness :
  (post_api_data degraded 10 20 initial
   = (Normal (success degraded initial), accepted degraded 10 20 initial)
   /\ Js.obj_get "volt" (stored_sample degraded 10 20) = VArr [])
  /\ get_api_data (accepted degraded 10 20 initial)
     = (Normal (mkResponse 200 (VArr [])), accepted degraded 10 20 initial)
  /\ get_api_harmonics (accepted degraded 10 20 initial)
     = (Normal (mkResponse 200
          (VArr [VObj [ ("timestamp", VNum 5); ("harmonic", VArr []) ]])),
        accepted degraded 10 20 initial).
Proof.
  pose proof (proj1 degraded_sample_served degraded 10%float 20%float initial
                eq_refl eq_refl eq_refl) as H1.
  pose proof (proj2 degraded_sample_served (accepted degraded 10 20 initial)
                (stored_sample degraded 10 20) eq_refl eq_refl) as H2.
  split; [split|split].
  - exact (proj1 H1).
  - exact (proj1 (proj2 (proj2 H1))).
  - exact (proj1 H2).
  - exact (proj1 (proj2 (proj2 H2))).
Defined.

(** C9, as stated, fails: with a stored sample whose [harmonic] is empty,
    [/api/harmonics] does not serve the empty array. *)
Lemma degraded_sample_served_counterexample :
  ~ (forall (s : Server) (item : object),
        latestData (dataPoints s) = Some item ->
        Js.obj_get "harmonic" item = VArr [] ->
        fst (get_api_harmonics s) = Normal (mkResponse 200 (VArr []))).
Proof.
  intros H.
  specialize (H (accepted degraded 10 20 initial) (stored_sample degraded 10 20)
                eq_refl eq_refl).
  vm_compute in H. discriminate H.
Qed.

(** ** The broadcaster *)

Lemma add_effects_app es1 es2 s :
  add_effects es2 (add_effects es1 s) = add_effects (es1 ++ es2) s.
Proof. unfold add_effects. simpl. now rewrite app_assoc. Qed.

Lemma add_effects_nil s : add_effects [] s = s.
Proof. destruct s. unfold add_effects. simpl. now rewrite app_nil_r. Qed.

Lemma Map_get_app_notin {V} (k : string) (m1 m2 : Map.t V) :
  ~ In k (Map.keys m1) -> Map.get k (m1 ++ m2) = Map.get k m2.
Proof.
  induction m1 as [|[k1 v1] m1 IH]; simpl; auto.
  intros H. destruct (String.eqb k k1) eqn:E.
  - apply String.eqb_eq in E. subst. tauto.
  - apply IH. tauto.
Qed.

Lemma Map_wf_app_head {V} (k : string) (v : V) (m1 m2 : Map.t V) :
  Map.wf (m1 ++ (k, v) :: m2) -> Map.get k (m1 ++ (k, v) :: m2) = Some v.
Proof.
  unfold Map.wf, Map.keys. rewrite map_app. simpl. intros H.
  apply NoDup_remove_2 in H.
  rewrite Map_get_app_notin.
  - simpl. now rewrite String.eqb_refl.
  - intros Hin. apply H. apply in_or_app. now left.
Qed.

Lemma Map_In_get {V} (k : string) (v : V) (m : Map.t V) :
  Map.wf m -> In (k, v) m -> Map.get k m = Some v.
Proof.
  intros Hwf Hin. apply in_split in Hin. destruct Hin as [m1 [m2 ->]].
  now apply Map_wf_app_head.
Qed.

Lemma Map_get_split {V} (k : string) (v : V) (m : Map.t V) :
  Map.get k m = Some v ->
  exists m1 m2, m = m1 ++ (k, v) :: m2 /\ Map.get k m1 = None.
Proof.
  induction m as [|[k1 v1] m IH]; simpl; [discriminate|].
  destruct (String.eqb k k1) eqn:E.
  - intros H. inversion H; subst. apply String.eqb_eq in E. subst.
    now exists [], m.
  - intros H. destruct (IH H) as [m1 [m2 [-> Hn]]].
    exists ((k1, v1) :: m1), m2. simpl. now rewrite E.
Qed.

Lemma broadcast_client_eq message client clientId failed s :
  broadcast_client message client clientId failed s
  = (Normal (if undelivered client then StrSet.add clientId failed else failed),
     add_effects (attempts message [(clientId, client)]) s).
Proof.
  unfold broadcast_client, undelivered, attempts, ws_send. simpl.
  destruct (ReadyState_eqb (readyState (ws client)) OPEN); simpl.
  - unfold_m. destruct (send_throws (ws client)); reflexivity.
  - unfold_m. now rewrite add_effects_nil.
Qed.

Lemma forEach_broadcast message (m2 : Map.t ClientInfo) :
  forall (m1 : Map.t ClientInfo) (failed : StrSet.t) (s : Server),
    connectedClients s = m1 ++ m2 ->
    Map.wf (m1 ++ m2) ->
    forEach_keys (broadcast_client message) (Map.keys m2) failed s
    = (Normal (failed_of m2 failed), add_effects (attempts message m2) s).
Proof.
  induction m2 as [|[k c] m2 IH]; intros m1 failed s Hs Hwf; simpl.
  - unfold_m. now rewrite add_effects_nil.
  - unfold bind at 1. unfold get_state. rewrite Hs.
    rewrite (Map_wf_app_head _ _ _ _ Hwf).
    unfold bind at 1. rewrite broadcast_client_eq.
    rewrite (IH (m1 ++ [(k, c)])).
    + rewrite add_effects_app. unfold attempts. simpl. now rewrite app_nil_r.
    + simpl. rewrite Hs. now rewrite <- app_assoc.
    + now rewrite <- app_assoc.
Qed.

Lemma cleanup_all_effects (ks : list string) :
  forall s, exists s' ts,
    cleanup_all ks s = (Normal tt, s')
    /\ effects s' = effects s ++ ts
    /\ forallb is_terminate ts = true.
Proof.
  induction ks as [|k ks IH]; intros s; simpl.
  - exists s, []. unfold_m. now rewrite app_nil_r.
  - unfold bind.
    destruct (Map.get k (connectedClients s)) as [c|] eqn:E.
    + rewrite (cleanupClient_present _ _ _ E).
      destruct (IH (terminated k c s)) as [s' [ts [H1 [H2 H3]]]].
      exists s', (WsTerminate (ws c) (negb (terminate_throws (ws c))) :: ts).
      rewrite H1, H2. simpl. rewrite <- app_assoc. auto.
    + rewrite (cleanupClient_absent _ _ E). apply IH.
Qed.

Lemma filter_none {A} (f : A -> bool) (l : list A) :
  forallb (fun x => negb (f x)) l = true -> filter f l = [].
Proof.
  induction l as [|x l IH]; simpl; auto.
  intros H. apply andb_prop in H. destruct H as [H1 H2].
  destruct (f x); [discriminate|]. auto.
Qed.

Lemma attempts_all_open message m :
  all_open m ->
  attempts message m
  = map (fun kc : string * ClientInfo =>
           WsSend (ws (snd kc)) message (negb (send_throws (ws (snd kc))))) m.
Proof.
  unfold all_open. induction 1 as [|[k c] m Hc Hm IH]; simpl; auto.
  simpl in Hc. rewrite Hc. simpl. f_equal. apply IH.
Qed.

Section Broadcast.
Variable JSON_stringify : value -> string.

Lemma broadcastData_eq data s :
  Map.wf (connectedClients s) ->
  connectedClients s <> [] ->
  broadcastData JSON_stringify data s
  = cleanup_all (failed_of (connectedClients s) [])
      (add_effects (Stringify data :: attempts (JSON_stringify data) (connectedClients s)) s).
Proof.
  intros Hwf Hne.
  assert (Hsz : Nat.eqb (Map.size (connectedClients s)) 0 = false)
    by (destruct (connectedClients s); [congruence | reflexivity]).
  unfold broadcastData, connectedClients_forEach, bind, get_state, emit, modify.
  rewrite Hsz. cbn [connectedClients].
  change (mkServer (connectedClients s) (dataPoints s) (immediates s)
            (effects s ++ [Stringify data]))
    with (add_effects [Stringify data] s).
  rewrite (forEach_broadcast (JSON_stringify data) (connectedClients s) [] []).
  - now rewrite add_effects_app.
  - reflexivity.
  - exact Hwf.
Qed.

Lemma broadcastData_empty data s :
  connectedClients s = [] ->
  broadcastData JSON_stringify data s = (Normal tt, s).
Proof.
  intros H. unfold broadcastData, bind, get_state. now rewrite H.
Qed.

(** C3. Fan-out. On a registry of N entries whose transports are all open,
    [broadcastData] completes normally; when N is not zero it calls
    [JSON.stringify] once, then calls [send] once on each entry's
    transport, in registry order and with that one serialized message, so
    N times in all; on the empty registry it makes no call at all. *)
Theorem broadcast_fanout (data : value) (s : Server) :
  Map.wf (connectedClients s) ->
  all_open (connectedClients s) ->
  exists s' new,
    broadcastData JSON_stringify data s = (Normal tt, s')
    /\ effects s' = effects s ++ new
    /\ filter is_send new
       = map (fun kc : string * ClientInfo =>
                WsSend (ws (snd kc)) (JSON_stringify data)
                       (negb (send_throws (ws (snd kc)))))
             (connectedClients s)
    /\ length (filter is_send new) = Map.size (connectedClients s)
    /\ match connectedClients s with
       | [] => new = [] /\ s' = s
       | _ :: _ => filter is_stringify new = [Stringify data]
       end.
Proof.
  intros Hwf Hopen.
  assert (Hc : {connectedClients s = []} + {connectedClients s <> []})
    by (destruct (connectedClients s); [left | right]; congruence).
  destruct Hc as [Em|Hne].
  - exists s, []. rewrite (broadcastData_empty data s Em).
    rewrite app_nil_r, Em. simpl. repeat split; reflexivity.
  - rewrite (broadcastData_eq data s Hwf Hne).
    destruct (cleanup_all_effects (failed_of (connectedClients s) [])
                (add_effects (Stringify data
                                :: attempts (JSON_stringify data) (connectedClients s)) s))
      as [s' [ts [H1 [H2 H3]]]].
    exists s', (Stringify data :: attempts (JSON_stringify data) (connectedClients s) ++ ts).
    rewrite H1, H2. simpl effects. rewrite <- app_assoc. simpl app.
    assert (Hts_send : filter is_send ts = []).
    { apply filter_none. clear - H3. induction ts as [|e ts IH]; simpl in *; auto.
      apply andb_prop in H3. destruct H3 as [He Hts]. rewrite (IH Hts).
      destruct e; simpl in *; auto; discriminate. }
    assert (Hts_str : filter is_stringify ts = []).
    { apply filter_none. clear - H3. induction ts as [|e ts IH]; simpl in *; auto.
      apply andb_prop in H3. destruct H3 as [He Hts]. rewrite (IH Hts).
      destruct e; simpl in *; auto; discriminate. }
    assert (Hat : attempts (JSON_stringify data) (connectedClients s)
                  = map (fun kc : string * ClientInfo =>
                           WsSend (ws (snd kc)) (JSON_stringify data)
                                  (negb (send_throws (ws (snd kc)))))
                        (connectedClients s)).
    { now apply attempts_all_open. }
    assert (Hsend : filter is_send
                      (Stringify data
                         :: attempts (JSON_stringify data) (connectedClients s) ++ ts)
                    = attempts (JSON_stringify data) (connectedClients s)).
    { simpl. rewrite filter_app, Hts_send, app_nil_r. rewrite Hat.
      clear. induction (connectedClients s) as [|x l IH]; simpl; auto. now rewrite IH. }
    assert (Hstr : filter is_stringify
                     (Stringify data
                        :: attempts (JSON_stringify data) (connectedClients s) ++ ts)
                   = [Stringify data]).
    { simpl. f_equal. rewrite filter_app, Hts_str, app_nil_r. rewrite Hat.
      clear. induction (connectedClients s) as [|x l IH]; simpl; auto. }
    rewrite Hsend, Hstr, Hat. rewrite length_map. unfold Map.size.
    repeat split; auto.
    destruct (connectedClients s); [congruence | reflexivity].
Qed.

Lemma failed_of_app m1 m2 acc :
  failed_of (m1 ++ m2) acc = failed_of m2 (failed_of m1 acc).
Proof.
  revert acc. induction m1 as [|[k c] m1 IH]; intros acc; simpl; auto.
Qed.

Lemma failed_of_clean m acc :
  (forall k c, In (k, c) m -> undelivered c = false) -> failed_of m acc = acc.
Proof.
  revert acc. induction m as [|[k c] m IH]; intros acc H; simpl; auto.
  rewrite (H k c) by (now left). apply IH. intros k' c' Hin. apply (H k' c'). now right.
Qed.

(** C5. Failure isolation. On a registry of N open connections of which
    exactly one, [failing], has a [send] that throws, [broadcastData]
    completes normally (nothing reaches the caller); every other
    connection is sent the serialized message and stays registered; after
    the pass of sends the failing connection is terminated and deleted; the
    registry is left with N-1 entries. *)
Theorem broadcast_failure_isolation (data : value) (s : Server)
    (failing : string) (client : ClientInfo) :
  Map.wf (connectedClients s) ->
  all_open (connectedClients s) ->
  Map.get failing (connectedClients s) = Some client ->
  send_throws (ws client) = true ->
  (forall k c, Map.get k (connectedClients s) = Some c -> k <> failing ->
               send_throws (ws c) = false) ->
  exists s',
    broadcastData JSON_stringify data s = (Normal tt, s')
    /\ connectedClients s' = Map.delete failing (connectedClients s)
    /\ S (Map.size (connectedClients s')) = Map.size (connectedClients s)
    /\ Map.get failing (connectedClients s') = None
    /\ effects s'
       = effects s
         ++ Stringify data
         :: map (fun kc : string * ClientInfo =>
                   WsSend (ws (snd kc)) (JSON_stringify data)
                          (negb (send_throws (ws (snd kc)))))
                (connectedClients s)
         ++ [WsTerminate (ws client) (negb (terminate_throws (ws client)))]
    /\ (forall k c, Map.get k (connectedClients s) = Some c -> k <> failing ->
          In (WsSend (ws c) (JSON_stringify data) true) (effects s')
          /\ Map.get k (connectedClients s') = Some c).
Proof.
  intros Hwf Hopen Hget Hthrows Hothers.
  assert (Hne : connectedClients s <> []).
  { intros E. rewrite E in Hget. discriminate. }
  rewrite (broadcastData_eq data s Hwf Hne).
  assert (Hfailed : failed_of (connectedClients s) [] = [failing]).
  { destruct (Map_get_split _ _ _ Hget) as [m1 [m2 [Em Hn1]]].
    assert (Hwf' := Hwf). rewrite Em in Hwf'.
    assert (Hclean : forall k c, In (k, c) (connectedClients s) -> k <> failing ->
                                 undelivered c = false).
    { intros k c Hin Hk. unfold undelivered.
      rewrite (Hothers k c (Map_In_get _ _ _ Hwf Hin) Hk).
      unfold all_open in Hopen. rewrite Forall_forall in Hopen.
      specialize (Hopen (k, c) Hin). simpl in Hopen. now rewrite Hopen. }
    rewrite Em, failed_of_app. simpl.
    rewrite (failed_of_clean m1).
    - replace (undelivered client) with true
        by (unfold undelivered; now rewrite Hthrows, orb_true_r).
      apply failed_of_clean. intros k c Hin. apply (Hclean k c).
      + rewrite Em. apply in_or_app. right. now right.
      + intros ->. unfold Map.wf, Map.keys in Hwf'. rewrite map_app in Hwf'.
        simpl in Hwf'. apply NoDup_remove_2 in Hwf'. apply Hwf'.
        apply in_or_app. right. now apply (in_map fst) in Hin.
    - intros k c Hin. apply (Hclean k c).
      + rewrite Em. apply in_or_app. now left.
      + intros ->. apply Map_get_None_keys in Hn1. apply Hn1.
        now apply (in_map fst) in Hin. }
  rewrite Hfailed. rewrite (attempts_all_open _ _ Hopen).
  set (sends := map (fun kc : string * ClientInfo =>
                       WsSend (ws (snd kc)) (JSON_stringify data)
                              (negb (send_throws (ws (snd kc)))))
                    (connectedClients s)).
  exists (terminated failing client (add_effects (Stringify data :: sends) s)).
  split; [|split; [|split; [|split; [|split]]]].
  - simpl cleanup_all. unfold bind.
    rewrite (cleanupClient_present failing client) by exact Hget. reflexivity.
  - reflexivity.
  - simpl. now apply Map_size_delete_present with (v := client).
  - simpl. apply Map_get_delete_same.
  - simpl. rewrite <- app_assoc. reflexivity.
  - intros k c Hk Hneq. split.
    + simpl. apply in_or_app. left. apply in_or_app. right. right.
      destruct (Map_get_split _ _ _ Hk) as [m1 [m2 [Em _]]].
      replace true with (negb (send_throws (ws c)))
        by (now rewrite (Hothers k c Hk Hneq)).
      unfold sends.
      apply (in_map (fun kc : string * ClientInfo =>
                       WsSend (ws (snd kc)) (JSON_stringify data)
                              (negb (send_throws (ws (snd kc))))) _ (k, c)).
      rewrite Em. apply in_or_app. right. now left.
    + simpl. rewrite Map_get_delete_other by exact Hneq. exact Hk.
Qed.

End Broadcast.

(** ** The liveness sweeper *)

Lemma sweep_client_eq client k s :
  sweep_client client k tt s
  = let client' :=
      mkClientInfo (ws client) (connectedAt client) (lastPing client) false in
    if negb (isAlive client) then cleanupClient k s
    else if ping_throws (ws client)
         then cleanupClient k
                (add_effects [WsPing (ws client) false]
                   (with_clients (Map.set k client') s))
         else (Normal tt,
               add_effects [WsPing (ws client) true]
                 (with_clients (Map.set k client') s)).
Proof.
  unfold sweep_client, ws_ping.
  destruct (isAlive client), (ping_throws (ws client)); reflexivity.
Qed.

Lemma sweep_client_spec client k s :
  Map.get k (connectedClients s) = Some client ->
  fst (sweep_client client k tt s) = Normal tt
  /\ (forall id, Map.get id (connectedClients (snd (sweep_client client k tt s)))
                 = if String.eqb id k then swept client
                   else Map.get id (connectedClients s))
  /\ (Map.wf (connectedClients s) ->
      Map.wf (connectedClients (snd (sweep_client client k tt s)))).
Proof.
  intros Hget. rewrite sweep_client_eq. unfold swept. cbv zeta.
  set (client' := mkClientInfo (ws client) (connectedAt client) (lastPing client) false).
  destruct (isAlive client) eqn:Ealive; simpl negb; simpl andb; cbv iota.
  - destruct (ping_throws (ws client)) eqn:Eping; simpl negb; cbv iota.
    + set (s1 := add_effects [WsPing (ws client) false]
                   (with_clients (Map.set k client') s)).
      assert (H1 : Map.get k (connectedClients s1) = Some client')
        by (subst s1; simpl; apply Map_get_set_same).
      rewrite (cleanupClient_present k client' s1 H1). simpl.
      split; [reflexivity|]. split.
      * intros id. destruct (String.eqb id k) eqn:E.
        -- apply String.eqb_eq in E. subst. apply Map_get_delete_same.
        -- apply String.eqb_neq in E.
           rewrite Map_get_delete_other by exact E.
           now apply Map_get_set_other.
      * intros Hwf. now apply Map_wf_delete, Map_wf_set.
    + simpl. split; [reflexivity|]. split.
      * intros id. destruct (String.eqb id k) eqn:E.
        -- apply String.eqb_eq in E. subst. apply Map_get_set_same.
        -- apply String.eqb_neq in E. now apply Map_get_set_other.
      * intros Hwf. now apply Map_wf_set.
  - rewrite (cleanupClient_present k client s Hget). simpl.
    split; [reflexivity|]. split.
    + intros id. destruct (String.eqb id k) eqn:E.
      * apply String.eqb_eq in E. subst. apply Map_get_delete_same.
      * apply String.eqb_neq in E. now apply Map_get_delete_other.
    + intros Hwf. now apply Map_wf_delete.
Qed.

Lemma Map_mem_In k ks : Map.mem k ks = true <-> In k ks.
Proof.
  induction ks as [|x ks IH]; simpl.
  - split; [discriminate | tauto].
  - rewrite orb_true_iff, IH, String.eqb_eq. split; intros [H|H]; auto.
Qed.

Lemma forEach_keys_some {A} (f : ClientInfo -> string -> A -> M A) k ks a s client a' s1 :
  Map.get k (connectedClients s) = Some client ->
  f client k a s = (Normal a', s1) ->
  forEach_keys f (k :: ks) a s = forEach_keys f ks a' s1.
Proof.
  intros Hg Hf. simpl. unfold bind, get_state. now rewrite Hg, Hf.
Qed.

Lemma forEach_keys_none {A} (f : ClientInfo -> string -> A -> M A) k ks a s :
  Map.get k (connectedClients s) = None ->
  forEach_keys f (k :: ks) a s = forEach_keys f ks a s.
Proof.
  intros Hg. simpl. unfold bind, get_state. now rewrite Hg.
Qed.

Lemma forEach_sweep (ks : list string) :
  forall s, NoDup ks ->
    fst (forEach_keys sweep_client ks tt s) = Normal tt
    /\ (forall id,
          Map.get id (connectedClients (snd (forEach_keys sweep_client ks tt s)))
          = if Map.mem id ks then swept_entry (Map.get id (connectedClients s))
            else Map.get id (connectedClients s))
    /\ (Map.wf (connectedClients s) ->
        Map.wf (connectedClients (snd (forEach_keys sweep_client ks tt s)))).
Proof.
  induction ks as [|k ks IH]; intros s Hnd.
  - simpl. auto.
  - inversion Hnd as [|? ? Hnotin Hnd']; subst.
    destruct (Map.get k (connectedClients s)) as [client|] eqn:Eget.
    + destruct (sweep_client_spec client k s Eget) as [Hn [Hg Hw]].
      destruct (sweep_client client k tt s) as [r s1] eqn:Es. simpl in Hn, Hg, Hw.
      subst r. rewrite (forEach_keys_some sweep_client k ks tt s client tt s1 Eget Es).
      destruct (IH s1 Hnd') as [IHn [IHg IHw]].
      split; [exact IHn|]. split.
      * intros id. rewrite IHg, !Hg. simpl Map.mem.
        destruct (String.eqb id k) eqn:E.
        -- apply String.eqb_eq in E. subst id. simpl.
           destruct (Map.mem k ks) eqn:Em.
           ++ apply Map_mem_In in Em. contradiction.
           ++ now rewrite Eget.
        -- reflexivity.
      * auto.
    + rewrite (forEach_keys_none sweep_client k ks tt s Eget).
      destruct (IH s Hnd') as [IHn [IHg IHw]].
      split; [exact IHn|]. split.
      * intros id. rewrite IHg. simpl Map.mem.
        destruct (String.eqb id k) eqn:E; [|reflexivity].
        apply String.eqb_eq in E. subst id. simpl. rewrite Eget.
        now destruct (Map.mem k ks).
      * auto.
Qed.

Lemma pingInterval_callback_spec s :
  Map.wf (connectedClients s) ->
  fst (pingInterval_callback s) = Normal tt
  /\ (forall id, Map.get id (connectedClients (snd (pingInterval_callback s)))
                 = swept_entry (Map.get id (connectedClients s)))
  /\ Map.wf (connectedClients (snd (pingInterval_callback s))).
Proof.
  intros Hwf. unfold pingInterval_callback, connectedClients_forEach.
  unfold bind at 1. unfold get_state at 1.
  destruct (forEach_sweep (Map.keys (connectedClients s)) s Hwf) as [Hn [Hg Hw]].
  split; [exact Hn|]. split; [|auto].
  intros id. rewrite Hg.
  destruct (Map.mem id (Map.keys (connectedClients s))) eqn:Em; [reflexivity|].
  destruct (Map.get id (connectedClients s)) as [c|] eqn:Eg; [|reflexivity].
  apply Map_get_Some_keys in Eg. apply Map_mem_In in Eg. congruence.
Qed.

Lemma cleanupClient_wf clientId s :
  Map.wf (connectedClients s) ->
  Map.wf (connectedClients (snd (cleanupClient clientId s))).
Proof.
  intros Hwf. destruct (Map.get clientId (connectedClients s)) as [c|] eqn:E.
  - rewrite (cleanupClient_present _ _ _ E). simpl. now apply Map_wf_delete.
  - now rewrite (cleanupClient_absent _ _ E).
Qed.

Lemma cleanupClient_get clientId id s :
  Map.get id (connectedClients (snd (cleanupClient clientId s)))
  = Map.get id (connectedClients s)
  \/ Map.get id (connectedClients (snd (cleanupClient clientId s))) = None.
Proof.
  destruct (string_dec id clientId) as [->|Hne].
  - right. apply cleanupClient_removes.
  - left. now apply cleanupClient_other.
Qed.

Lemma cleanup_all_clients (ks : list string) :
  forall s,
    fst (cleanup_all ks s) = Normal tt
    /\ (forall id,
          Map.get id (connectedClients (snd (cleanup_all ks s)))
          = Map.get id (connectedClients s)
          \/ Map.get id (connectedClients (snd (cleanup_all ks s))) = None)
    /\ (Map.wf (connectedClients s) ->
        Map.wf (connectedClients (snd (cleanup_all ks s)))).
Proof.
  induction ks as [|k ks IH]; intros s.
  - simpl. auto.
  - simpl cleanup_all. unfold bind.
    destruct (cleanupClient k s) as [r s1] eqn:E.
    assert (Hn : r = Normal tt).
    { pose proof (cleanupClient_normal k s) as X. now rewrite E in X. }
    assert (Hg : forall id, Map.get id (connectedClients s1)
                            = Map.get id (connectedClients s)
                            \/ Map.get id (connectedClients s1) = None).
    { intros id. pose proof (cleanupClient_get k id s) as X. now rewrite E in X. }
    assert (Hw : Map.wf (connectedClients s) -> Map.wf (connectedClients s1)).
    { intros H. pose proof (cleanupClient_wf k s H) as X. now rewrite E in X. }
    subst r. destruct (IH s1) as [IHn [IHg IHw]].
    split; [exact IHn|]. split; [|auto].
    intros id. destruct (IHg id) as [H|H]; [|now right].
    rewrite H. apply Hg.
Qed.

Section Sweeper.
Variable JSON_stringify : value -> string.

Lemma broadcastData_clients data s :
  Map.wf (connectedClients s) ->
  fst (broadcastData JSON_stringify data s) = Normal tt
  /\ (forall id,
        Map.get id (connectedClients (snd (broadcastData JSON_stringify data s)))
        = Map.get id (connectedClients s)
        \/ Map.get id (connectedClients (snd (broadcastData JSON_stringify data s))) = None)
  /\ Map.wf (connectedClients (snd (broadcastData JSON_stringify data s))).
Proof.
  intros Hwf.
  assert (Hc : {connectedClients s = []} + {connectedClients s <> []})
    by (destruct (connectedClients s); [left | right]; congruence).
  destruct Hc as [Em|Hne].
  - rewrite (broadcastData_empty JSON_stringify data s Em). simpl. auto.
  - rewrite (broadcastData_eq JSON_stringify data s Hwf Hne).
    match goal with |- context [cleanup_all ?ks ?st] =>
      destruct (cleanup_all_clients ks st) as [Hn [Hg Hw]] end.
    split; [exact Hn|]. split; [exact Hg | now apply Hw].
Qed.

Lemma run_immediate_eq s :
  run_immediate JSON_stringify s
  = match immediates s with
    | [] => (Normal tt, s)
    | storedData :: rest =>
        try_catch (broadcastData JSON_stringify (VObj storedData)) (fun _ => ret tt)
                  (with_immediates (fun _ => rest) s)
    end.
Proof.
  unfold run_immediate, bind, get_state, modify.
  destruct (immediates s); reflexivity.
Qed.

(** Every handler leaves the registry a map: its keys stay distinct. What
    an event that does not renew [id] does to the entry under [id]: a sweep
    sweeps it; any other event leaves it as it is or removes it. *)
Lemma step_entry id e s :
  Map.wf (connectedClients s) ->
  renews id e = false ->
  Map.wf (connectedClients (step JSON_stringify e s))
  /\ (if is_sweep e
      then Map.get id (connectedClients (step JSON_stringify e s))
           = swept_entry (Map.get id (connectedClients s))
      else Map.get id (connectedClients (step JSON_stringify e s))
           = Map.get id (connectedClients s)
           \/ Map.get id (connectedClients (step JSON_stringify e s)) = None).
Proof.
  intros Hwf Hre. unfold step.
  destruct e as [rnd w n1 n2|k now|k|k| |data n1 n2| |heap]; simpl handle; simpl is_sweep;
    cbv iota.
  - simpl in Hre. apply String.eqb_neq in Hre.
    unfold on_connection, modify. simpl. split.
    + now apply Map_wf_set.
    + left. apply Map_get_set_other. congruence.
  - simpl in Hre. apply String.eqb_neq in Hre.
    destruct (Map.get k (connectedClients s)) as [c|] eqn:E.
    + rewrite (on_pong_present _ _ _ _ E). simpl. split.
      * now apply Map_wf_set.
      * left. apply Map_get_set_other. congruence.
    + rewrite (on_pong_absent k now s E). simpl. auto.
  - unfold on_error. split; [now apply cleanupClient_wf | apply cleanupClient_get].
  - unfold on_close. split; [now apply cleanupClient_wf | apply cleanupClient_get].
  - destruct (pingInterval_callback_spec s Hwf) as [_ [Hg Hw]]. auto.
  - unfold bind. rewrite post_api_data_eq.
    destruct (rejected data); simpl; auto.
  - rewrite run_immediate_eq.
    destruct (immediates s) as [|sd rest]; [simpl; auto|].
    unfold try_catch.
    set (s1 := with_immediates (fun _ => rest) s).
    destruct (broadcastData_clients (VObj sd) s1 Hwf) as [Hn [Hg Hw]].
    destruct (broadcastData JSON_stringify (VObj sd) s1) as [r s2]. simpl in Hn, Hg, Hw.
    subst r. simpl. split; [exact Hw | apply Hg].
  - destruct (N.ltb _ heap); simpl; auto.
Qed.

Lemma step_wf e s :
  Map.wf (connectedClients s) -> Map.wf (connectedClients (step JSON_stringify e s)).
Proof.
  intros Hwf. unfold step.
  destruct e as [rnd w n1 n2|k now|k|k| |data n1 n2| |heap]; simpl handle.
  - unfold on_connection, modify. simpl. now apply Map_wf_set.
  - destruct (Map.get k (connectedClients s)) as [c|] eqn:E.
    + rewrite (on_pong_present _ _ _ _ E). simpl. now apply Map_wf_set.
    + now rewrite (on_pong_absent k now s E).
  - now apply cleanupClient_wf.
  - now apply cleanupClient_wf.
  - now destruct (pingInterval_callback_spec s Hwf) as [_ [_ Hw]].
  - unfold bind. rewrite post_api_data_eq. now destruct (rejected data).
  - rewrite run_immediate_eq.
    destruct (immediates s) as [|sd rest]; [exact Hwf|].
    unfold try_catch.
    set (s1 := with_immediates (fun _ => rest) s).
    destruct (broadcastData_clients (VObj sd) s1 Hwf) as [Hn [_ Hw]].
    destruct (broadcastData JSON_stringify (VObj sd) s1) as [r s2]. simpl in Hn, Hw.
    now subst r.
  - now destruct (N.ltb _ heap).
Qed.

Lemma run_wf tr : forall s,
  Map.wf (connectedClients s) -> Map.wf (connectedClients (run JSON_stringify tr s)).
Proof.
  induction tr as [|e tr IH]; intros s Hwf; simpl; auto.
  apply IH. now apply step_wf.
Qed.

Lemma strikes_left_swept o : strikes_left (swept_entry o) <= strikes_left o - 1.
Proof.
  destruct o as [c|]; simpl; auto. unfold swept.
  destruct (isAlive c); simpl.
  - destruct (negb (ping_throws (ws c))); simpl; lia.
  - lia.
Qed.

Lemma run_strikes id tr : forall s,
  Map.wf (connectedClients s) ->
  never_acks id tr = true ->
  strikes_left (Map.get id (connectedClients (run JSON_stringify tr s)))
  <= strikes_left (Map.get id (connectedClients s)) - sweeps tr.
Proof.
  induction tr as [|e tr IH]; intros s Hwf Hna.
  - simpl. unfold sweeps. simpl. lia.
  - simpl in Hna. apply andb_prop in Hna. destruct Hna as [He Htr].
    apply negb_true_iff in He.
    destruct (step_entry id e s Hwf He) as [Hw Hg].
    simpl run. specialize (IH _ Hw Htr).
    unfold sweeps in *. simpl filter.
    destruct (is_sweep e).
    + rewrite Hg in IH. pose proof (strikes_left_swept (Map.get id (connectedClients s))).
      simpl length. lia.
    + destruct Hg as [Hg|Hg]; rewrite Hg in IH; simpl in IH; lia.
Qed.

Lemma run_acks id tr : forall s client,
  Map.wf (connectedClients s) ->
  Map.get id (connectedClients s) = Some client ->
  ping_throws (ws client) = false ->
  sweeps_and_pongs tr = true ->
  acks_every_cycle id (isAlive client) tr = true ->
  exists client',
    Map.get id (connectedClients (run JSON_stringify tr s)) = Some client'
    /\ ws client' = ws client.
Proof.
  induction tr as [|e tr IH]; intros s client Hwf Hget Hping Hsp Hack.
  - simpl. eauto.
  - simpl in Hsp. apply andb_prop in Hsp. destruct Hsp as [He Hsp].
    pose proof (step_wf e s Hwf) as Hw.
    destruct e as [rnd w n1 n2|k now|k|k| |data n1 n2| |heap]; try discriminate He.
    + (* an acknowledgment *)
      simpl in Hack. simpl run. unfold step in *. simpl handle in *.
      destruct (string_dec k id) as [->|Hne].
      * rewrite (on_pong_present _ _ _ _ Hget) in *. simpl snd in *.
        rewrite String.eqb_refl in Hack. simpl in Hack.
        destruct (IH _ (mkClientInfo (ws client) (connectedAt client) now true)
                     Hw (Map_get_set_same _ _ _) Hping Hsp Hack) as [c' [H1 H2]].
        exists c'. auto.
      * assert (Hk : String.eqb k id = false) by now apply String.eqb_neq.
        rewrite Hk in Hack. simpl in Hack.
        apply (IH _ client Hw); auto.
        destruct (Map.get k (connectedClients s)) as [c|] eqn:E.
        -- rewrite (on_pong_present _ _ _ _ E). simpl.
           rewrite Map_get_set_other by congruence. exact Hget.
        -- now rewrite (on_pong_absent k now s E).
    + (* a sweep *)
      simpl in Hack. apply andb_prop in Hack. destruct Hack as [Halive Hack].
      simpl run. unfold step in *. simpl handle in *.
      destruct (pingInterval_callback_spec s Hwf) as [_ [Hg _]].
      specialize (Hg id). rewrite Hget in Hg. simpl in Hg. unfold swept in Hg.
      rewrite Halive, Hping in Hg. simpl in Hg.
      destruct (IH _ _ Hw Hg Hping Hsp Hack) as [c' [H1 H2]].
      exists c'. auto.
Qed.

(** C4. Two-strike eviction. On a registry with distinct keys:
    (1) over any trace of events that holds at least two sweeps and no
    acknowledgment for [id] (nor a new connection taking that id), the
    entry under [id] is gone at the end;
    (2) over any trace of sweeps and acknowledgments in which [id]
    acknowledges before every sweep (an entry that is alive at the start
    needs none before the first), an entry whose [ping] does not throw is
    still registered at the end, with the same transport;
    (3) an entry whose [ping] throws is gone after one sweep. *)
Theorem two_strike_eviction (id : string) (s : Server) :
  Map.wf (connectedClients s) ->
  (forall tr,
      never_acks id tr = true -> 2 <= sweeps tr ->
      Map.get id (connectedClients (run JSON_stringify tr s)) = None)
  /\ (forall tr client,
        Map.get id (connectedClients s) = Some client ->
        ping_throws (ws client) = false ->
        sweeps_and_pongs tr = true ->
        acks_every_cycle id (isAlive client) tr = true ->
        exists client',
          Map.get id (connectedClients (run JSON_stringify tr s)) = Some client'
          /\ ws client' = ws client)
  /\ (forall client,
        Map.get id (connectedClients s) = Some client ->
        ping_throws (ws client) = true ->
        Map.get id (connectedClients (step JSON_stringify PingInterval s)) = None).
Proof.
  intros Hwf. split; [|split].
  - intros tr Hna Hsw.
    pose proof (run_strikes id tr s Hwf Hna) as H.
    destruct (Map.get id (connectedClients (run JSON_stringify tr s))) as [c|]; auto.
    exfalso. simpl in H.
    assert (strikes_left (Map.get id (connectedClients s)) <= 2)
      by (destruct (Map.get id (connectedClients s)) as [c0|]; simpl;
          [destruct (isAlive c0)|]; lia).
    destruct (isAlive c); lia.
  - intros tr client. now apply run_acks.
  - intros client Hget Hping. unfold step. simpl handle.
    destruct (pingInterval_callback_spec s Hwf) as [_ [Hg _]].
    rewrite Hg, Hget. simpl. unfold swept. rewrite Hping.
    now rewrite andb_false_r.
Qed.

(** What a new connection does to the registry. It is stored under the id
    derived from [Math.random()]; entries under other ids are untouched.
    When the id is not in the registry the registry grows by one entry;
    when it is, the entry under it is replaced and the size stays. The
    keys stay distinct in every state the server reaches. *)
Theorem registry_keys (rnd : string) (w : WebSocket) (now1 now2 : float) (s : Server) :
  Map.wf (connectedClients s) ->
  let clientId := Js.substring_from 7 rnd in
  let s' := snd (on_connection rnd w now1 now2 s) in
  Map.wf (connectedClients s')
  /\ Map.get clientId (connectedClients s') = Some (mkClientInfo w now1 now2 true)
  /\ (forall k, k <> clientId ->
        Map.get k (connectedClients s') = Map.get k (connectedClients s))
  /\ match Map.get clientId (connectedClients s) with
     | None => Map.size (connectedClients s') = S (Map.size (connectedClients s))
     | Some _ => Map.size (connectedClients s') = Map.size (connectedClients s)
     end
  /\ (forall tr, Map.wf (connectedClients (run JSON_stringify tr initial))).
Proof.
  intros Hwf clientId s'. subst s'. unfold on_connection, modify. simpl.
  fold clientId. split; [|split; [|split; [|split]]].
  - now apply Map_wf_set.
  - apply Map_get_set_same.
  - intros k Hk. now apply Map_get_set_other.
  - destruct (Map.get clientId (connectedClients s)) as [c|] eqn:E.
    + now apply Map_size_set_present with (v' := c).
    + rewrite (Map_keys_set_absent _ _ _ E). unfold Map.size.
      rewrite length_app. simpl. lia.
  - intros tr. apply run_wf. constructor.
Qed.

End Sweeper.

(** ** Concrete runs *)

Lemma three_clients_wf : Map.wf (connectedClients three_clients).
Proof. apply Map_wfb_wf. reflexivity. Defined.

Lemma three_clients_open : all_open (connectedClients three_clients).
Proof. repeat constructor. Defined.

Lemma broadcast_fanout_witness :
  exists s' new,
    broadcastData any_serializer (VObj []) three_clients = (Normal tt, s')
    /\ effects s' = effects three_clients ++ new
    /\ length (filter is_send new) = 3.
Proof.
  destruct (broadcast_fanout any_serializer (VObj []) three_clients
              three_clients_wf three_clients_open)
    as (s' & new & H1 & H2 & _ & H4 & _).
  exists s', new. repeat split; assumption.
Defined.

Lemma broadcast_failure_isolation_witness :
  exists s',
    broadcastData any_serializer (VObj []) three_clients = (Normal tt, s')
    /\ S (Map.size (connectedClients s')) = 3.
Proof.
  assert (Hothers : forall k c,
             Map.get k (connectedClients three_clients) = Some c -> k <> "b" ->
             send_throws (ws c) = false).
  { intros k c Hg Hk. simpl in Hg.
    destruct (String.eqb k "a"); [inversion Hg; reflexivity|].
    destruct (String.eqb k "b") eqn:Eb;
      [apply String.eqb_eq in Eb; contradiction|].
    destruct (String.eqb k "c"); [inversion Hg; reflexivity | discriminate]. }
  destruct (broadcast_failure_isolation any_serializer (VObj []) three_clients "b"
              (mkClientInfo (broken_socket 2) 11 11 true)
              three_clients_wf three_clients_open eq_refl eq_refl Hothers)
    as (s' & H1 & _ & H3 & _).
  exists s'. split; assumption.
Defined.

Lemma two_strike_eviction_witness :
  Map.get "a" (connectedClients (run any_serializer [PingInterval; PingInterval] three_clients))
  = None.
Proof.
  exact (proj1 (two_strike_eviction any_serializer "a" three_clients three_clients_wf)
               [PingInterval; PingInterval] eq_refl (le_n 2)).
Defined.

Lemma cleanupClient_idempotent_witness :
  cleanupClient "z" three_clients = (Normal tt, three_clients).
Proof.
  exact (proj2 (cleanupClient_idempotent "z" three_clients) eq_refl).
Defined.

Lemma on_pong_absent_noop_witness :
  on_pong "z" 99 three_clients = (Normal tt, three_clients).
Proof.
  exact (proj1 (on_pong_absent_noop "z" 99 three_clients eq_refl)).
Defined.

Lemma registry_keys_witness :
  Map.size (connectedClients
              (snd (on_connection "0.4fzyo82mvyr" (open_socket 4) 13 13 three_clients)))
  = 4.
Proof.
  exact (proj1 (proj2 (proj2 (proj2
           (registry_keys any_serializer "0.4fzyo82mvyr" (open_socket 4) 13 13
              three_clients three_clients_wf))))).
Defined.

(** C7. The code does not keep what the claim says. [Math.random()]
    returning 0.5 and then 0.25 gives the strings ["0.i"] and ["0.9"];
    [substring(7)] turns both into the empty id (a longer string such as
    ["0.4fzyo82mvyr"] keeps its tail). The second connection is stored
    under the id of the first, which is still registered: the registry
    keeps one entry, the first transport is displaced without a
    [terminate], and the ['close'] of the first connection, which closes
    over the same id, terminates the second transport. *)
Theorem registry_id_collision :
  let s1 := snd (on_connection "0.i" (open_socket 1) 10 10 initial) in
  let s2 := snd (on_connection "0.9" (open_socket 2) 20 20 s1) in
  Js.substring_from 7 "0.i" = ""
  /\ Js.substring_from 7 "0.9" = ""
  /\ Js.substring_from 7 "0.4fzyo82mvyr" = "82mvyr"
  /\ connectedClients s1 = [("", mkClientInfo (open_socket 1) 10 10 true)]
  /\ Map.get (Js.substring_from 7 "0.9") (connectedClients s1)
     = Some (mkClientInfo (open_socket 1) 10 10 true)
  /\ connectedClients s2 = [("", mkClientInfo (open_socket 2) 20 20 true)]
  /\ Map.size (connectedClients s2) = 1
  /\ effects s2 = []
  /\ on_close "" s2
     = (Normal tt,
        mkServer [] (mkDataBuffer None) [] [WsTerminate (open_socket 2) true]).
Proof.
  repeat split.
Qed.

(** The broadcast over [three_clients]: one serialization, three sends of
    the same message, then the failing transport is terminated. *)
Example broadcast_three_clients :
  broadcastData any_serializer (VObj []) three_clients
  = (Normal tt,
     mkServer [ ("a", mkClientInfo (open_socket 1) 10 10 true);
                ("c", mkClientInfo (open_socket 3) 12 12 true) ]
              (mkDataBuffer None) []
              [ Stringify (VObj []);
                WsSend (open_socket 1) "{}" true;
                WsSend (broken_socket 2) "{}" false;
                WsSend (open_socket 3) "{}" true;
                WsTerminate (broken_socket 2) false ]).
Proof. reflexivity. Qed.

(** Two sweeps with one acknowledgment in between: only the client that
    acknowledged is left. *)
Example sweep_pong_sweep :
  connectedClients
    (run any_serializer [PingInterval; Pong "a" 50; PingInterval] three_clients)
  = [ ("a", mkClientInfo (open_socket 1) 10 50 false) ].
Proof. reflexivity. Qed.

(** A post followed by its deferred broadcast: the message is the sample
    without [storedAt]. *)
Example post_then_broadcast :
  effects (run any_serializer [PostData sample_a 100 101; Immediate] three_clients)
  = [ Stringify (VObj (sample_of sample_a 100));
      WsSend (open_socket 1) "{}" true;
      WsSend (broken_socket 2) "{}" false;
      WsSend (open_socket 3) "{}" true;
      WsTerminate (broken_socket 2) false ].
Proof. reflexivity. Qed.

(** * More of the server *)

(** ** The registry as a list *)

Lemma Map_set_mid {V} (k : string) (v v' : V) (m1 m2 : Map.t V) :
  ~ In k (Map.keys m1) ->
  Map.set k v' (m1 ++ (k, v) :: m2) = m1 ++ (k, v') :: m2.
Proof.
  induction m1 as [|[k1 v1] m1 IH]; simpl; intros H.
  - now rewrite String.eqb_refl.
  - destruct (String.eqb k k1) eqn:E.
    + apply String.eqb_eq in E. subst. tauto.
    + rewrite IH; tauto.
Qed.

Lemma Map_delete_mid {V} (k : string) (v : V) (m1 m2 : Map.t V) :
  ~ In k (Map.keys m1) -> ~ In k (Map.keys m2) ->
  Map.delete k (m1 ++ (k, v) :: m2) = m1 ++ m2.
Proof.
  induction m1 as [|[k1 v1] m1 IH]; simpl; intros H1 H2.
  - rewrite String.eqb_refl. apply Map_delete_absent.
    now apply Map_get_None_keys.
  - destruct (String.eqb k k1) eqn:E.
    + apply String.eqb_eq in E. subst. tauto.
    + rewrite IH; tauto.
Qed.

Lemma Map_wf_mid {V} (k : string) (v : V) (m1 m2 : Map.t V) :
  Map.wf (m1 ++ (k, v) :: m2) ->
  ~ In k (Map.keys m1) /\ ~ In k (Map.keys m2) /\ Map.wf (m1 ++ m2).
Proof.
  unfold Map.wf, Map.keys. rewrite !map_app. simpl. intros H.
  pose proof (NoDup_remove_1 _ _ _ H) as H1.
  pose proof (NoDup_remove_2 _ _ _ H) as H2.
  repeat split; auto; intros Hin; apply H2; apply in_or_app; auto.
Qed.

Lemma Map_wf_mid_set {V} (k : string) (v v' : V) (m1 m2 : Map.t V) :
  Map.wf (m1 ++ (k, v) :: m2) -> Map.wf ((m1 ++ [(k, v')]) ++ m2).
Proof.
  unfold Map.wf, Map.keys. rewrite <- app_assoc. rewrite !map_app. simpl. auto.
Qed.

(** ** The sweep as a whole *)

Lemma forEach_sweep_list (m2 : Map.t ClientInfo) :
  forall (m1 : Map.t ClientInfo) (s : Server),
    connectedClients s = m1 ++ m2 ->
    Map.wf (m1 ++ m2) ->
    forEach_keys sweep_client (Map.keys m2) tt s
    = (Normal tt,
       mkServer (m1 ++ swept_registry m2) (dataPoints s) (immediates s)
                (effects s ++ sweep_effects m2)).
Proof.
  induction m2 as [|[k c] m2 IH]; intros m1 s Hs Hwf.
  - simpl. unfold ret. rewrite app_nil_r in Hs. rewrite !app_nil_r, <- Hs. now destruct s.
  - destruct (Map_wf_mid _ _ _ _ Hwf) as [Hk1 [Hk2 Hwf']].
    assert (Hget : Map.get k (connectedClients s) = Some c)
      by (rewrite Hs; now apply Map_wf_app_head).
    change (Map.keys ((k, c) :: m2)) with (k :: Map.keys m2).
    pose proof (sweep_client_eq c k s) as Heq. cbv zeta in Heq.
    set (c' := mkClientInfo (ws c) (connectedAt c) (lastPing c) false) in *.
    unfold sweep_effects. simpl flat_map. fold (sweep_effects m2).
    unfold sweep_entry_effects. simpl swept_registry. unfold swept.
    destruct (isAlive c) eqn:Ealive; simpl negb in Heq; cbv iota in Heq; simpl andb.
    + destruct (ping_throws (ws c)) eqn:Eping; simpl negb; cbv iota.
      * (* the probe throws: the entry goes at once *)
        set (s1 := add_effects [WsPing (ws c) false] (with_clients (Map.set k c') s)) in *.
        assert (H1 : Map.get k (connectedClients s1) = Some c')
          by (subst s1; simpl; apply Map_get_set_same).
        rewrite (cleanupClient_present k c' s1 H1) in Heq.
        rewrite (forEach_keys_some sweep_client k (Map.keys m2) tt s c tt _ Hget Heq).
        rewrite (IH m1).
        -- simpl. rewrite <- !app_assoc. reflexivity.
        -- simpl. rewrite Hs, (Map_set_mid _ _ _ _ _ Hk1).
           now apply Map_delete_mid.
        -- exact Hwf'.
      * (* the probe goes out *)
        rewrite (forEach_keys_some sweep_client k (Map.keys m2) tt s c tt _ Hget Heq).
        rewrite (IH (m1 ++ [(k, c')])).
        -- simpl. rewrite <- !app_assoc. reflexivity.
        -- simpl. rewrite Hs, (Map_set_mid _ _ _ _ _ Hk1). now rewrite <- app_assoc.
        -- now apply Map_wf_mid_set with (v := c).
    + (* no acknowledgment since the last sweep *)
      rewrite (cleanupClient_present k c s Hget) in Heq.
      rewrite (forEach_keys_some sweep_client k (Map.keys m2) tt s c tt _ Hget Heq).
      rewrite (IH m1).
      * simpl. rewrite <- !app_assoc. reflexivity.
      * simpl. rewrite Hs. now apply Map_delete_mid.
      * exact Hwf'.
Qed.

Lemma swept_registry_not_alive m :
  Forall (fun kc : string * ClientInfo => isAlive (snd kc) = false) (swept_registry m).
Proof.
  induction m as [|[k c] m IH]; simpl; [constructor|].
  unfold swept. destruct (isAlive c && negb (ping_throws (ws c))); auto.
Qed.

Lemma swept_registry_size m : Map.size (swept_registry m) <= Map.size m.
Proof.
  unfold Map.size. induction m as [|[k c] m IH]; simpl; auto.
  destruct (swept c); simpl; lia.
Qed.

Lemma swept_registry_dead m :
  Forall (fun kc : string * ClientInfo => isAlive (snd kc) = false) m ->
  swept_registry m = [] /\ sweep_effects m = map terminate_effect m.
Proof.
  induction 1 as [|[k c] m Hc Hm [IH1 IH2]]; simpl; auto.
  simpl in Hc. unfold swept, sweep_effects, sweep_entry_effects in *. simpl.
  rewrite Hc. simpl. split; [exact IH1|]. now rewrite IH2.
Qed.

Lemma sweep_effects_terminates m :
  length (filter is_terminate (sweep_effects m)) + Map.size (swept_registry m)
  = Map.size m.
Proof.
  unfold Map.size, sweep_effects. induction m as [|[k c] m IH]; simpl; auto.
  rewrite filter_app, length_app.
  assert (Hc : length (filter is_terminate (sweep_entry_effects c))
               + match swept c with Some _ => 1 | None => 0 end = 1).
  { unfold sweep_entry_effects, swept.
    destruct (isAlive c), (ping_throws (ws c)); reflexivity. }
  destruct (swept c); simpl in *; lia.
Qed.

Lemma pingInterval_callback_eq s :
  Map.wf (connectedClients s) ->
  pingInterval_callback s
  = (Normal tt,
     mkServer (swept_registry (connectedClients s)) (dataPoints s) (immediates s)
              (effects s ++ sweep_effects (connectedClients s))).
Proof.
  intros Hwf.
  unfold pingInterval_callback, connectedClients_forEach, bind, get_state.
  now rewrite (forEach_sweep_list (connectedClients s) [] s eq_refl Hwf).
Qed.

(** X1. One sweep, as a whole. On a registry with distinct keys the
    callback of [pingInterval] completes normally; it keeps, in their
    order, exactly the entries that were alive and whose [ping] did not
    throw, each with [isAlive] cleared; it pings the entries it found
    alive, terminates the others and those whose [ping] threw, entry by
    entry in registry order; the store and the pending broadcasts are
    untouched. So after a sweep no entry is marked alive and the registry
    has not grown. *)
Theorem pingInterval_closed_form (s : Server) :
  Map.wf (connectedClients s) ->
  pingInterval_callback s
  = (Normal tt,
     mkServer (swept_registry (connectedClients s)) (dataPoints s) (immediates s)
              (effects s ++ sweep_effects (connectedClients s)))
  /\ Forall (fun kc : string * ClientInfo => isAlive (snd kc) = false)
            (connectedClients (snd (pingInterval_callback s)))
  /\ Map.size (connectedClients (snd (pingInterval_callback s)))
     <= Map.size (connectedClients s).
Proof.
  intros Hwf. rewrite (pingInterval_callback_eq s Hwf). simpl.
  split; [reflexivity|]. split.
  - apply swept_registry_not_alive.
  - apply swept_registry_size.
Qed.

Lemma terminate_effect_swept k client client' :
  swept client = Some client' ->
  terminate_effect (k, client') = terminate_effect (k, client).
Proof.
  unfold swept. destruct (isAlive client && negb (ping_throws (ws client)));
    [|discriminate].
  intros H. inversion H. reflexivity.
Qed.

Lemma two_sweeps_terminates m :
  Permutation
    (filter is_terminate
       (sweep_effects m ++ map terminate_effect (swept_registry m)))
    (map terminate_effect m).
Proof.
  induction m as [|[k c] m IH]; [constructor|].
  rewrite filter_app in *.
  change (sweep_effects ((k, c) :: m)) with (sweep_entry_effects c ++ sweep_effects m).
  rewrite filter_app. cbn [map swept_registry].
  destruct (swept c) as [c'|] eqn:Es.
  - (* kept by the first sweep, terminated by the second *)
    assert (Hf : filter is_terminate (sweep_entry_effects c) = []).
    { unfold swept in Es. unfold sweep_entry_effects.
      destruct (isAlive c); [|discriminate].
      destruct (ping_throws (ws c)); [discriminate | reflexivity]. }
    rewrite Hf. cbn [app map filter].
    rewrite (terminate_effect_swept k c c' Es).
    change (is_terminate (terminate_effect (k, c))) with true. cbv iota.
    apply Permutation_sym, Permutation_cons_app, Permutation_sym. exact IH.
  - (* terminated by the first sweep *)
    assert (Hf : filter is_terminate (sweep_entry_effects c) = [terminate_effect (k, c)]).
    { unfold swept in Es. unfold sweep_entry_effects, terminate_effect. simpl.
      destruct (isAlive c); [|reflexivity].
      destruct (ping_throws (ws c)); [reflexivity | discriminate]. }
    rewrite Hf. cbn [app]. apply perm_skip. exact IH.
Qed.

Section SweepTwice.
Variable JSON_stringify : value -> string.

(** X2. Two sweeps with nothing in between empty the registry, whatever
    it held, and over the two sweeps every entry's transport is terminated
    exactly once: the calls of the two sweeps are those of the first sweep
    followed by one [terminate] for each entry it kept, so the [terminate]
    calls made are, up to order, one per entry of the registry, each on
    that entry's own transport. *)
Theorem two_sweeps_empty_registry (s : Server) :
  Map.wf (connectedClients s) ->
  let s' := run JSON_stringify [PingInterval; PingInterval] s in
  connectedClients s' = []
  /\ exists new,
       effects s' = effects s ++ new
       /\ new = sweep_effects (connectedClients s)
                ++ map terminate_effect (swept_registry (connectedClients s))
       /\ Permutation (filter is_terminate new)
                      (map terminate_effect (connectedClients s))
       /\ length (filter is_terminate new) = Map.size (connectedClients s).
Proof.
  intros Hwf s'. subst s'. simpl run. unfold step. simpl handle.
  pose proof (pingInterval_callback_eq s Hwf) as E1.
  pose proof (swept_registry_not_alive (connectedClients s)) as Hdead.
  destruct (pingInterval_callback_spec s Hwf) as [_ [_ Hwf1]].
  rewrite E1 in *. simpl snd in *.
  pose proof (pingInterval_callback_eq _ Hwf1) as E2.
  rewrite E2. simpl.
  destruct (swept_registry_dead _ Hdead) as [H1 H2].
  split; [exact H1|].
  exists (sweep_effects (connectedClients s)
          ++ map terminate_effect (swept_registry (connectedClients s))).
  split; [now rewrite app_assoc, H2|]. split; [reflexivity|].
  pose proof (two_sweeps_terminates (connectedClients s)) as Hp.
  split; [exact Hp|].
  rewrite (Permutation_length Hp). now rewrite length_map.
Qed.

End SweepTwice.

(** ** The broadcast as a whole *)

Lemma StrSet_add_fresh k acc : ~ In k acc -> StrSet.add k acc = acc ++ [k].
Proof.
  intros H. unfold StrSet.add. destruct (Map.mem k acc) eqn:E; auto.
  apply Map_mem_In in E. contradiction.
Qed.

Lemma failed_of_filter (m : Map.t ClientInfo) :
  forall acc,
    NoDup (acc ++ Map.keys m) ->
    failed_of m acc = acc ++ Map.keys (filter undelivered_entry m).
Proof.
  induction m as [|[k c] m IH]; intros acc Hnd; simpl.
  - now rewrite app_nil_r.
  - change (undelivered_entry (k, c)) with (undelivered c).
    simpl in Hnd. destruct (undelivered c).
    + rewrite StrSet_add_fresh.
      * rewrite IH; [simpl; now rewrite <- app_assoc|].
        now rewrite <- app_assoc.
      * apply NoDup_remove_2 in Hnd. intros Hin. apply Hnd. apply in_or_app. now left.
    + apply IH. now apply NoDup_remove_1 in Hnd.
Qed.

Lemma cleanup_filter (m2 : Map.t ClientInfo) :
  forall (kept : Map.t ClientInfo) (s : Server),
    connectedClients s = kept ++ m2 ->
    Map.wf (kept ++ m2) ->
    cleanup_all (Map.keys (filter undelivered_entry m2)) s
    = (Normal tt,
       mkServer (kept ++ filter delivered_entry m2) (dataPoints s) (immediates s)
                (effects s ++ map terminate_effect (filter undelivered_entry m2))).
Proof.
  induction m2 as [|[k c] m2 IH]; intros kept s Hs Hwf.
  - simpl. unfold ret. rewrite app_nil_r in Hs. rewrite !app_nil_r, <- Hs. now destruct s.
  - simpl filter.
    change (undelivered_entry (k, c)) with (undelivered c).
    change (delivered_entry (k, c)) with (negb (undelivered c)).
    destruct (undelivered c) eqn:Eu; simpl negb; cbv iota.
    + destruct (Map_wf_mid _ _ _ _ Hwf) as [Hk1 [Hk2 Hwf']].
      assert (Hget : Map.get k (connectedClients s) = Some c)
        by (rewrite Hs; now apply Map_wf_app_head).
      simpl Map.keys. simpl cleanup_all. unfold bind.
      rewrite (cleanupClient_present k c s Hget).
      rewrite (IH kept).
      * simpl. rewrite <- app_assoc. reflexivity.
      * simpl. rewrite Hs. now apply Map_delete_mid.
      * exact Hwf'.
    + rewrite (IH (kept ++ [(k, c)])).
      * now rewrite <- app_assoc.
      * now rewrite <- app_assoc.
      * now rewrite <- app_assoc.
Qed.

Section BroadcastWhole.
Variable JSON_stringify : value -> string.

Lemma broadcastData_whole data s :
  Map.wf (connectedClients s) ->
  broadcastData JSON_stringify data s
  = (Normal tt,
     mkServer (filter delivered_entry (connectedClients s)) (dataPoints s) (immediates s)
              (effects s ++ broadcast_effects JSON_stringify data (connectedClients s))).
Proof.
  intros Hwf.
  assert (Hc : {connectedClients s = []} + {connectedClients s <> []})
    by (destruct (connectedClients s); [left | right]; congruence).
  destruct Hc as [Em|Hne].
  - rewrite (broadcastData_empty JSON_stringify data s Em), Em. simpl.
    rewrite app_nil_r, <- Em. now destruct s.
  - rewrite (broadcastData_eq JSON_stringify data s Hwf Hne).
    rewrite (failed_of_filter (connectedClients s) []) by exact Hwf.
    simpl app.
    rewrite (cleanup_filter (connectedClients s) []) by (simpl; auto).
    simpl. unfold broadcast_effects.
    destruct (connectedClients s) as [|kc m]; [congruence|].
    now rewrite <- app_assoc.
Qed.

(** X3. One broadcast, as a whole. On a registry with distinct keys
    [broadcastData] completes normally, whatever the transports do. It
    keeps, in their order, exactly the entries whose transport is open and
    whose [send] did not throw. On a registry that is not empty it
    serializes once, then calls [send] on the open transports only, each
    with that one message, and after the pass terminates every entry it
    did not deliver to, once, in registry order. The store and the pending
    broadcasts are untouched. *)
Theorem broadcastData_closed_form (data : value) (s : Server) :
  Map.wf (connectedClients s) ->
  broadcastData JSON_stringify data s
  = (Normal tt,
     mkServer (filter delivered_entry (connectedClients s)) (dataPoints s) (immediates s)
              (effects s ++ broadcast_effects JSON_stringify data (connectedClients s)))
  /\ Forall (fun kc : string * ClientInfo =>
               readyState (ws (snd kc)) = OPEN /\ send_throws (ws (snd kc)) = false)
            (connectedClients (snd (broadcastData JSON_stringify data s)))
  /\ (forall w message ok,
        In (WsSend w message ok)
           (broadcast_effects JSON_stringify data (connectedClients s)) ->
        readyState w = OPEN /\ message = JSON_stringify data
        /\ ok = negb (send_throws w)).
Proof.
  intros Hwf. rewrite (broadcastData_whole data s Hwf). simpl.
  split; [reflexivity|]. split.
  - apply Forall_forall. intros [k c] Hin. apply filter_In in Hin.
    destruct Hin as [_ Hd]. unfold delivered_entry, undelivered in Hd. simpl in *.
    apply negb_true_iff, orb_false_iff in Hd. destruct Hd as [Ho Hs].
    apply negb_false_iff in Ho. split; [|exact Hs].
    destruct (readyState (ws c)); simpl in Ho; congruence.
  - intros w message ok Hin. unfold broadcast_effects in Hin.
    destruct (connectedClients s) as [|kc0 m0] eqn:Em; [contradiction|].
    rewrite <- Em in Hin. clear Em.
    destruct Hin as [Hin|Hin]; [discriminate|].
    apply in_app_or in Hin. destruct Hin as [Hin|Hin].
    + unfold attempts in Hin. apply in_flat_map in Hin.
      destruct Hin as [[k c] [_ Hin]]. simpl in Hin.
      destruct (ReadyState_eqb (readyState (ws c)) OPEN) eqn:Eo; [|contradiction].
      destruct Hin as [Hin|[]]. inversion Hin; subst.
      repeat split. destruct (readyState (ws c)); simpl in Eo; congruence.
    + apply in_map_iff in Hin. destruct Hin as [kc [Hkc _]]. discriminate.
Qed.

Lemma filter_delivered_healthy m : healthy (filter delivered_entry m).
Proof.
  intros kc Hin. apply filter_In in Hin. destruct Hin as [_ Hd].
  unfold delivered_entry in Hd. now apply negb_true_iff in Hd.
Qed.

Lemma healthy_filter m :
  healthy m ->
  filter delivered_entry m = m /\ filter undelivered_entry m = [].
Proof.
  unfold healthy. induction m as [|kc m IH]; intros H; simpl; auto.
  unfold delivered_entry at 1, undelivered_entry at 1.
  rewrite (H kc (or_introl eq_refl)). simpl.
  destruct IH as [IH1 IH2]. { intros x Hx. apply H. now right. }
  now rewrite IH1, IH2.
Qed.

Lemma Map_wf_filter {V} (f : string * V -> bool) (m : Map.t V) :
  Map.wf m -> Map.wf (filter f m).
Proof.
  unfold Map.wf, Map.keys. induction m as [|[k v] m IH]; simpl; auto.
  intros H. inversion H as [|? ? Hn Hd]; subst.
  destruct (f (k, v)); simpl; auto. constructor; auto.
  intros Hin. apply Hn. apply in_map_iff in Hin. destruct Hin as [x [Hx Hin]].
  apply filter_In in Hin. destruct Hin as [Hin _].
  apply in_map_iff. exists x. auto.
Qed.

Lemma broadcastData_healthy data s :
  Map.wf (connectedClients s) ->
  healthy (connectedClients s) ->
  broadcastData JSON_stringify data s
  = (Normal tt,
     add_effects (match connectedClients s with
                  | [] => []
                  | _ :: _ => Stringify data
                              :: attempts (JSON_stringify data) (connectedClients s)
                  end) s).
Proof.
  intros Hwf Hh. rewrite (broadcastData_whole data s Hwf).
  destruct (healthy_filter _ Hh) as [H1 H2].
  rewrite H1. unfold broadcast_effects, add_effects. rewrite H2. simpl.
  destruct (connectedClients s); [reflexivity | now rewrite app_nil_r].
Qed.

Lemma attempts_healthy message m :
  healthy m ->
  filter is_terminate (attempts message m) = []
  /\ length (filter is_send (attempts message m)) = length m.
Proof.
  induction m as [|[k c] m IH]; intros Hm; [auto|].
  destruct IH as [IH1 IH2]. { intros x Hx. apply Hm. now right. }
  pose proof (Hm (k, c) (or_introl eq_refl)) as Hc. unfold undelivered in Hc.
  simpl in Hc. apply orb_false_iff in Hc. destruct Hc as [Ho _].
  apply negb_false_iff in Ho.
  change (attempts message ((k, c) :: m))
    with ((if ReadyState_eqb (readyState (ws c)) OPEN
           then [WsSend (ws c) message (negb (send_throws (ws c)))]
           else []) ++ attempts message m).
  rewrite Ho. simpl. rewrite IH1, IH2. auto.
Qed.

Lemma attempts_healthy_sends message m :
  healthy m ->
  attempts message m
  = map (fun kc : string * ClientInfo => WsSend (ws (snd kc)) message true) m.
Proof.
  induction m as [|[k c] m IH]; intros Hm; [reflexivity|].
  pose proof (Hm (k, c) (or_introl eq_refl)) as Hc. unfold undelivered in Hc.
  simpl in Hc. apply orb_false_iff in Hc. destruct Hc as [Ho Hs].
  apply negb_false_iff in Ho.
  change (attempts message ((k, c) :: m))
    with ((if ReadyState_eqb (readyState (ws c)) OPEN
           then [WsSend (ws c) message (negb (send_throws (ws c)))]
           else []) ++ attempts message m).
  rewrite Ho, Hs, IH.
  - reflexivity.
  - intros x Hx. apply Hm. now right.
Qed.

(** X4. Eviction settles in one broadcast. While the transports do not
    change, a broadcast that follows another one removes nobody and
    terminates nothing: on the entries the first one kept it serializes
    once and calls [send] once on each entry's transport, in registry
    order, with the serialized second message, and every one of these
    sends goes through; when the first one kept nobody it makes no call. *)
Theorem second_broadcast_evicts_nobody (data1 data2 : value) (s : Server) :
  Map.wf (connectedClients s) ->
  let s1 := snd (broadcastData JSON_stringify data1 s) in
  let s2 := snd (broadcastData JSON_stringify data2 s1) in
  connectedClients s2 = connectedClients s1
  /\ exists new,
       effects s2 = effects s1 ++ new
       /\ new = match connectedClients s1 with
                | [] => []
                | _ :: _ =>
                    Stringify data2
                      :: map (fun kc : string * ClientInfo =>
                                WsSend (ws (snd kc)) (JSON_stringify data2) true)
                             (connectedClients s1)
                end
       /\ filter is_terminate new = []
       /\ length (filter is_send new) = Map.size (connectedClients s1).
Proof.
  intros Hwf s1 s2. subst s2 s1.
  rewrite (broadcastData_whole data1 s Hwf). simpl snd.
  set (s1 := mkServer (filter delivered_entry (connectedClients s)) (dataPoints s)
                      (immediates s)
                      (effects s ++ broadcast_effects JSON_stringify data1 (connectedClients s))).
  assert (Hwf1 : Map.wf (connectedClients s1)) by (now apply Map_wf_filter).
  assert (Hh1 : healthy (connectedClients s1)) by apply filter_delivered_healthy.
  rewrite (broadcastData_healthy data2 s1 Hwf1 Hh1). simpl snd.
  split; [reflexivity|].
  eexists. split; [reflexivity|].
  destruct (attempts_healthy (JSON_stringify data2) _ Hh1) as [Ht Hs].
  pose proof (attempts_healthy_sends (JSON_stringify data2) _ Hh1) as Ha.
  subst s1. simpl connectedClients in *. unfold Map.size.
  destruct (filter delivered_entry (connectedClients s)) as [|kc m];
    [repeat split; reflexivity|].
  split; [now rewrite Ha|].
  change (filter is_terminate
            (Stringify data2 :: attempts (JSON_stringify data2) (kc :: m)))
    with (filter is_terminate (attempts (JSON_stringify data2) (kc :: m))).
  change (filter is_send
            (Stringify data2 :: attempts (JSON_stringify data2) (kc :: m)))
    with (filter is_send (attempts (JSON_stringify data2) (kc :: m))).
  now rewrite Ht, Hs.
Qed.

End BroadcastWhole.

(** ** Shutdown *)

Lemma forEach_cleanup (m2 : Map.t ClientInfo) :
  forall s,
    connectedClients s = m2 ->
    Map.wf m2 ->
    forEach_keys (fun (_ : ClientInfo) clientId (_ : unit) => cleanupClient clientId)
                 (Map.keys m2) tt s
    = (Normal tt,
       mkServer [] (dataPoints s) (immediates s)
                (effects s ++ map terminate_effect m2)).
Proof.
  induction m2 as [|[k c] m2 IH]; intros s Hs Hwf.
  - simpl. unfold ret. rewrite app_nil_r, <- Hs. now destruct s.
  - change (Map.keys ((k, c) :: m2)) with (k :: Map.keys m2).
    assert (Hget : Map.get k (connectedClients s) = Some c)
      by (rewrite Hs; simpl; now rewrite String.eqb_refl).
    inversion Hwf as [|? ? Hn Hd]; subst.
    rewrite (forEach_keys_some _ k (Map.keys m2) tt s c tt _ Hget
               (cleanupClient_present k c s Hget)).
    rewrite IH.
    + simpl. rewrite <- app_assoc. reflexivity.
    + simpl. rewrite Hs. simpl. rewrite String.eqb_refl.
      apply Map_delete_absent. now apply Map_get_None_keys.
    + exact Hd.
Qed.

(** X5. Shutdown. The [forEach] of the [SIGTERM] handler completes
    normally even when a [terminate] throws, terminates every registered
    transport exactly once, in registry order, and leaves the registry
    empty; it makes no other call and touches neither the store nor the
    pending broadcasts. *)
Theorem sigterm_cleanup_empties (s : Server) :
  Map.wf (connectedClients s) ->
  sigterm_cleanup s
  = (Normal tt,
     mkServer [] (dataPoints s) (immediates s)
              (effects s ++ map terminate_effect (connectedClients s))).
Proof.
  intros Hwf. unfold sigterm_cleanup, connectedClients_forEach, bind, get_state.
  now apply forEach_cleanup.
Qed.

(** ** Reading the store *)

Lemma get_api_data_none s :
  latestData (dataPoints s) = None ->
  get_api_data s = (Normal (mkResponse 200 (VArr [])), s).
Proof.
  intros H. unfold get_api_data, getLatest, DataBuffer_getLatest. unfold_m.
  now rewrite H.
Qed.

Lemma get_projection_serves fields s : serves_latest (get_projection fields) s.
Proof.
  unfold serves_latest. destruct (latestData (dataPoints s)) as [item|] eqn:E.
  - rewrite (get_projection_some fields item s E). eexists. split; [reflexivity|].
    simpl. lia.
  - rewrite (get_projection_none fields s E). exists []. split; [reflexivity|].
    simpl. lia.
Qed.

(** X6. The four latest-sample endpoints are read-only: in every state
    each of them answers 200 with an array of at most one element, never
    500, and leaves the store, the registry, the pending broadcasts and the
    transports alone. *)
Theorem latest_endpoints_read_only (s : Server) :
  serves_latest get_api_data s
  /\ serves_latest get_api_power_quality s
  /\ serves_latest get_api_harmonics s
  /\ serves_latest get_api_events s.
Proof.
  split; [|repeat split; apply get_projection_serves].
  unfold serves_latest. destruct (latestData (dataPoints s)) as [item|] eqn:E.
  - rewrite (get_api_data_some item s E).
    destruct (valid_item item); eexists; (split; [reflexivity | simpl; lia]).
  - rewrite (get_api_data_none s E). exists []. split; [reflexivity | simpl; lia].
Qed.

(** X7. Post, then read. After [POST /api/data] accepts a payload,
    [/api/data] serves the stored sample, stamps included, when the
    payload's [harmonic] has at least one value, and the empty array when
    it has none; [/api/harmonics] and [/api/events] serve the payload's
    [timestamp] with its [harmonic], and with its [events] (the empty array
    when [events] is not an array). *)
Theorem post_then_read (data : value) (now1 now2 : float) (s : Server) :
  rejected data = false ->
  let s' := snd (post_api_data data now1 now2 s) in
  get_api_data s'
  = (Normal (mkResponse 200
       (if Js.nonempty (field data "harmonic")
        then VArr [VObj (stored_sample data now1 now2)]
        else VArr [])), s')
  /\ get_api_harmonics s'
     = (Normal (mkResponse 200
          (VArr [VObj [ ("timestamp", field data "timestamp");
                        ("harmonic", field data "harmonic") ]])), s')
  /\ get_api_events s'
     = (Normal (mkResponse 200
          (VArr [VObj [ ("timestamp", field data "timestamp");
                        ("events", array_or_empty (field data "events")) ]])), s').
Proof.
  intros Hacc s'. subst s'. rewrite post_api_data_eq, Hacc. simpl snd.
  assert (Hitem : latestData (dataPoints (accepted data now1 now2 s))
                  = Some (stored_sample data now1 now2)) by reflexivity.
  split; [|split].
  - rewrite (get_api_data_some _ _ Hitem). unfold valid_item.
    change (Js.obj_get "timestamp" (stored_sample data now1 now2))
      with (field data "timestamp").
    change (Js.obj_get "harmonic" (stored_sample data now1 now2))
      with (field data "harmonic").
    unfold rejected in Hacc. apply orb_false_iff in Hacc. destruct Hacc as [Hacc Hh].
    apply orb_false_iff in Hacc. destruct Hacc as [_ Ht].
    apply negb_false_iff in Ht, Hh. rewrite Ht, Hh. simpl.
    now destruct (Js.nonempty (field data "harmonic")).
  - unfold get_api_harmonics. now rewrite (get_projection_some _ _ _ Hitem).
  - unfold get_api_events. now rewrite (get_projection_some _ _ _ Hitem).
Qed.

Lemma post_then_read_witness :
  get_api_data (snd (post_api_data sample_a 10 20 initial))
  = (Normal (mkResponse 200 (VArr [VObj (stored_sample sample_a 10 20)])),
     snd (post_api_data sample_a 10 20 initial)).
Proof.
  exact (proj1 (post_then_read sample_a 10 20 initial eq_refl)).
Defined.

Section More.
Variable JSON_stringify : value -> string.

(** X8. Memory pressure. When the heap reading is above 500 MiB the
    memory check empties the store, so that all four latest-sample
    endpoints serve the empty array, and it leaves the registry, the
    pending broadcasts and the transports alone; at exactly 500 MiB it
    changes nothing. *)
Theorem memory_pressure_clears (heapUsed : N) (s : Server) :
  (500 * 1024 * 1024 < heapUsed)%N ->
  let s' := step JSON_stringify (MemoryInterval heapUsed) s in
  s' = with_dataPoints (mkDataBuffer None) s
  /\ serves_nothing get_api_data s'
  /\ serves_nothing get_api_power_quality s'
  /\ serves_nothing get_api_harmonics s'
  /\ serves_nothing get_api_events s'
  /\ step JSON_stringify (MemoryInterval (500 * 1024 * 1024)) s = s.
Proof.
  intros Hlt s'. subst s'. unfold step. simpl handle.
  apply N.ltb_lt in Hlt. simpl N.mul in Hlt. rewrite Hlt.
  unfold modify, DataBuffer_clear. simpl snd.
  unfold serves_nothing, get_api_power_quality, get_api_harmonics, get_api_events.
  split; [reflexivity|].
  split; [now apply get_api_data_none|].
  split; [now apply get_projection_none|].
  split; [now apply get_projection_none|].
  split; [now apply get_projection_none | reflexivity].
Qed.

(** X9. Only a new connection adds an entry. On a registry with distinct
    keys, no event other than ['connection'] puts an entry under an id
    that has none: acknowledgments, errors, closes, sweeps, posts,
    broadcasts and memory checks never register anything. *)
Theorem only_connection_registers (e : event) (id : string) (s : Server) :
  Map.wf (connectedClients s) ->
  is_connection e = false ->
  Map.get id (connectedClients s) = None ->
  Map.get id (connectedClients (step JSON_stringify e s)) = None.
Proof.
  intros Hwf Hc Hnone.
  destruct (renews id e) eqn:Er.
  - destruct e as [rnd w n1 n2|k now|k|k| |data n1 n2| |heap]; try discriminate.
    simpl in Er. apply String.eqb_eq in Er. subst k.
    unfold step. simpl handle. now rewrite (on_pong_absent id now s Hnone).
  - destruct (step_entry JSON_stringify id e s Hwf Er) as [_ Hg].
    destruct (is_sweep e).
    + rewrite Hg, Hnone. reflexivity.
    + destruct Hg as [Hg|Hg]; [now rewrite Hg | exact Hg].
Qed.

(** X10. The store is touched by posts and memory checks only. On a
    registry with distinct keys, connections, acknowledgments, errors,
    closes, sweeps and broadcasts leave the stored sample as it is, so
    every latest-sample endpoint answers after them as it did before. *)
Theorem store_frame (e : event) (s : Server) :
  Map.wf (connectedClients s) ->
  touches_store e = false ->
  dataPoints (step JSON_stringify e s) = dataPoints s
  /\ fst (get_api_data (step JSON_stringify e s)) = fst (get_api_data s)
  /\ (forall fields,
        fst (get_projection fields (step JSON_stringify e s))
        = fst (get_projection fields s)).
Proof.
  intros Hwf Ht.
  assert (Hd : dataPoints (step JSON_stringify e s) = dataPoints s).
  { unfold step.
    destruct e as [rnd w n1 n2|k now|k|k| |data n1 n2| |heap]; try discriminate;
      simpl handle.
    - reflexivity.
    - destruct (Map.get k (connectedClients s)) as [c|] eqn:E.
      + now rewrite (on_pong_present _ _ _ _ E).
      + now rewrite (on_pong_absent k now s E).
    - unfold on_error. destruct (Map.get k (connectedClients s)) as [c|] eqn:E.
      + now rewrite (cleanupClient_present _ _ _ E).
      + now rewrite (cleanupClient_absent _ _ E).
    - unfold on_close. destruct (Map.get k (connectedClients s)) as [c|] eqn:E.
      + now rewrite (cleanupClient_present _ _ _ E).
      + now rewrite (cleanupClient_absent _ _ E).
    - now rewrite (pingInterval_callback_eq s Hwf).
    - rewrite run_immediate_eq.
      destruct (immediates s) as [|sd rest]; [reflexivity|].
      unfold try_catch.
      rewrite (broadcastData_whole JSON_stringify (VObj sd)
                 (with_immediates (fun _ => rest) s) Hwf).
      reflexivity. }
  split; [exact Hd|].
  unfold get_api_data, get_projection, getLatest. unfold_m.
  rewrite Hd. split.
  - destruct (Nat.eqb (length (DataBuffer_getLatest (dataPoints s))) 0); [reflexivity|].
    now destruct (Nat.eqb (length (filter valid_item
                                     (DataBuffer_getLatest (dataPoints s)))) 0).
  - intros fields.
    now destruct (Nat.eqb (length (DataBuffer_getLatest (dataPoints s))) 0).
Qed.

End More.

(** X11. Connect, then close. When a connection is registered under an
    id the registry did not hold, closing it terminates its transport once
    and gives back the registry as it was before the connection, entry for
    entry. *)
Theorem connect_then_close (rnd : string) (w : WebSocket) (now1 now2 : float)
    (s : Server) :
  Map.get (Js.substring_from 7 rnd) (connectedClients s) = None ->
  on_close (Js.substring_from 7 rnd) (snd (on_connection rnd w now1 now2 s))
  = (Normal tt, add_effects [WsTerminate w (negb (terminate_throws w))] s).
Proof.
  intros Hnone. unfold on_close.
  set (k := Js.substring_from 7 rnd) in *.
  assert (Hget : Map.get k (connectedClients (snd (on_connection rnd w now1 now2 s)))
                 = Some (mkClientInfo w now1 now2 true)).
  { unfold on_connection, modify. simpl. apply Map_get_set_same. }
  rewrite (cleanupClient_present _ _ _ Hget).
  unfold terminated, add_effects, on_connection, modify. simpl.
  fold k. rewrite (Map_keys_set_absent _ _ _ Hnone).
  rewrite (Map_delete_mid k _ (connectedClients s) []).
  - now rewrite app_nil_r.
  - now apply Map_get_None_keys.
  - simpl. tauto.
Qed.

(** ** Deferred broadcasts *)

Section Deferred.
Variable JSON_stringify : value -> string.

Lemma run_app tr1 tr2 s :
  run JSON_stringify (tr1 ++ tr2) s
  = run JSON_stringify tr2 (run JSON_stringify tr1 s).
Proof. unfold run. apply fold_left_app. Qed.

Lemma step_post_accepted data now1 now2 s :
  rejected data = false ->
  step JSON_stringify (PostData data now1 now2) s = accepted data now1 now2 s.
Proof.
  intros H. unfold step. simpl handle. unfold bind.
  now rewrite post_api_data_eq, H.
Qed.

Lemma run_posts ps : forall s,
  all_accepted ps = true ->
  run JSON_stringify (map post_event ps) s
  = mkServer (connectedClients s) (store_after ps (dataPoints s))
             (immediates s ++ map posted_sample ps) (effects s).
Proof.
  induction ps as [|[[data now1] now2] ps IH]; intros s Hacc.
  - simpl. rewrite app_nil_r. now destruct s.
  - simpl in Hacc. apply andb_prop in Hacc. destruct Hacc as [Hd Hps].
    apply negb_true_iff in Hd.
    change (run JSON_stringify (map post_event ((data, now1, now2) :: ps)) s)
      with (run JSON_stringify (map post_event ps)
                (step JSON_stringify (PostData data now1 now2) s)).
    rewrite (step_post_accepted data now1 now2 s Hd).
    rewrite (IH _ Hps). simpl. now rewrite <- app_assoc.
Qed.

Lemma run_immediates q : forall s,
  immediates s = q ->
  Map.wf (connectedClients s) ->
  healthy (connectedClients s) ->
  run JSON_stringify (repeat Immediate (length q)) s
  = mkServer (connectedClients s) (dataPoints s) []
      (effects s
       ++ flat_map (fun sd : object =>
                      plain_broadcast_effects JSON_stringify (VObj sd) (connectedClients s))
                   q).
Proof.
  induction q as [|sd rest IH]; intros s Hq Hwf Hh.
  - simpl. rewrite app_nil_r, <- Hq. now destruct s.
  - change (run JSON_stringify (repeat Immediate (length (sd :: rest))) s)
      with (run JSON_stringify (repeat Immediate (length rest))
                (step JSON_stringify Immediate s)).
    unfold step. simpl handle.
    rewrite run_immediate_eq, Hq. unfold try_catch.
    rewrite (broadcastData_healthy JSON_stringify (VObj sd)
               (with_immediates (fun _ => rest) s) Hwf Hh).
    simpl snd. rewrite IH; auto.
    simpl. unfold plain_broadcast_effects. now rewrite <- app_assoc.
Qed.

(** X12. Deferred broadcasts go out in posting order. Start with no
    broadcast pending and a registry, with distinct keys, of open
    transports whose [send] does not throw. After any number of accepted
    posts, followed by as many turns of the [setImmediate] queue, the
    transports have seen one broadcast per post, in posting order, each of
    that post's own sample (not of the latest one); nothing is left
    pending, the registry is as it was, and the store holds the last
    post. *)
Theorem deferred_broadcasts_in_order (ps : list (value * float * float)) (s : Server) :
  Map.wf (connectedClients s) ->
  healthy (connectedClients s) ->
  immediates s = [] ->
  all_accepted ps = true ->
  let s' := run JSON_stringify
                (map post_event ps ++ repeat Immediate (length ps)) s in
  effects s'
  = effects s
    ++ flat_map (fun p : value * float * float =>
                   plain_broadcast_effects JSON_stringify (VObj (posted_sample p))
                                           (connectedClients s))
                ps
  /\ immediates s' = []
  /\ connectedClients s' = connectedClients s
  /\ dataPoints s' = store_after ps (dataPoints s).
Proof.
  intros Hwf Hh Hq Hacc s'. subst s'.
  rewrite run_app, (run_posts ps s Hacc), Hq. simpl app.
  rewrite <- (length_map posted_sample ps).
  rewrite (run_immediates (map posted_sample ps)); try assumption; [|reflexivity].
  simpl. repeat split.
  f_equal. rewrite flat_map_concat_map, map_map, <- flat_map_concat_map. reflexivity.
Qed.

(** X13. The pushed sample is not the stored one. After an accepted post
    and its deferred broadcast, on a registry that is not empty, the value
    handed to [JSON.stringify] is the sample with [receivedAt] and without
    [storedAt], while the element [getLatest()] returns carries both
    stamps. *)
Theorem broadcast_payload_without_storedAt (data : value) (now1 now2 : float)
    (s : Server) :
  Map.wf (connectedClients s) ->
  connectedClients s <> [] ->
  immediates s = [] ->
  rejected data = false ->
  let s' := run JSON_stringify [PostData data now1 now2; Immediate] s in
  (exists rest,
      effects s' = effects s ++ Stringify (VObj (sample_of data now1)) :: rest)
  /\ Js.obj_get "storedAt" (sample_of data now1) = VUndefined
  /\ Js.obj_get "receivedAt" (sample_of data now1) = VNum now1
  /\ DataBuffer_getLatest (dataPoints s') = [stored_sample data now1 now2]
  /\ Js.obj_get "storedAt" (stored_sample data now1 now2) = VNum now2
  /\ Js.obj_get "receivedAt" (stored_sample data now1 now2) = VNum now1.
Proof.
  intros Hwf Hne Hq Hacc s'. subst s'.
  change (run JSON_stringify [PostData data now1 now2; Immediate] s)
    with (step JSON_stringify Immediate
               (step JSON_stringify (PostData data now1 now2) s)).
  rewrite (step_post_accepted data now1 now2 s Hacc).
  unfold step. simpl handle. rewrite run_immediate_eq.
  unfold accepted at 1. simpl immediates. rewrite Hq. simpl app. unfold try_catch.
  rewrite broadcastData_whole by exact Hwf.
  simpl. unfold broadcast_effects.
  destruct (connectedClients s) as [|kc m]; [congruence|].
  split; [eexists; reflexivity|]. repeat split.
Qed.

End Deferred.

Lemma two_clients_wf : Map.wf (connectedClients two_clients).
Proof. apply Map_wfb_wf. reflexivity. Defined.

Lemma two_clients_healthy : healthy (connectedClients two_clients).
Proof.
  intros kc Hin. simpl in Hin.
  destruct Hin as [<-|[<-|[]]]; reflexivity.
Defined.

Lemma deferred_broadcasts_in_order_witness :
  immediates
    (run any_serializer
         [PostData sample_a 10 20; PostData sample_b 30 40; Immediate; Immediate]
         two_clients)
  = [].
Proof.
  exact (proj1 (proj2 (deferred_broadcasts_in_order any_serializer
                         [(sample_a, 10%float, 20%float); (sample_b, 30%float, 40%float)]
                         two_clients two_clients_wf two_clients_healthy
                         eq_refl eq_refl))).
Defined.

Lemma two_clients_not_empty : connectedClients two_clients <> [].
Proof. discriminate. Defined.

Lemma broadcast_payload_without_storedAt_witness :
  DataBuffer_getLatest
    (dataPoints (run any_serializer [PostData sample_a 10 20; Immediate] two_clients))
  = [stored_sample sample_a 10 20].
Proof.
  exact (proj1 (proj2 (proj2 (proj2
           (broadcast_payload_without_storedAt any_serializer sample_a 10 20 two_clients
              two_clients_wf two_clients_not_empty eq_refl eq_refl))))).
Defined.

(** ** Witnesses for the registry properties *)

Lemma pingInterval_closed_form_witness :
  pingInterval_callback three_clients
  = (Normal tt,
     mkServer (swept_registry (connectedClients three_clients))
              (dataPoints three_clients) (immediates three_clients)
              (effects three_clients ++ sweep_effects (connectedClients three_clients))).
Proof.
  exact (proj1 (pingInterval_closed_form three_clients three_clients_wf)).
Defined.

Lemma two_sweeps_empty_registry_witness :
  connectedClients (run any_serializer [PingInterval; PingInterval] three_clients) = [].
Proof.
  exact (proj1 (two_sweeps_empty_registry any_serializer three_clients three_clients_wf)).
Defined.

Lemma broadcastData_closed_form_witness :
  broadcastData any_serializer (VObj []) three_clients
  = (Normal tt,
     mkServer (filter delivered_entry (connectedClients three_clients))
              (dataPoints three_clients) (immediates three_clients)
              (effects three_clients
               ++ broadcast_effects any_serializer (VObj [])
                                    (connectedClients three_clients))).
Proof.
  exact (proj1 (broadcastData_closed_form any_serializer (VObj []) three_clients
                  three_clients_wf)).
Defined.

Lemma second_broadcast_evicts_nobody_witness :
  connectedClients
    (snd (broadcastData any_serializer VNull
            (snd (broadcastData any_serializer (VObj []) three_clients))))
  = connectedClients (snd (broadcastData any_serializer (VObj []) three_clients)).
Proof.
  exact (proj1 (second_broadcast_evicts_nobody any_serializer (VObj []) VNull
                  three_clients three_clients_wf)).
Defined.

Lemma sigterm_cleanup_empties_witness :
  sigterm_cleanup three_clients
  = (Normal tt,
     mkServer [] (dataPoints three_clients) (immediates three_clients)
              (effects three_clients
               ++ map terminate_effect (connectedClients three_clients))).
Proof.
  exact (sigterm_cleanup_empties three_clients three_clients_wf).
Defined.

Lemma memory_pressure_clears_witness :
  serves_nothing get_api_data
    (step any_serializer (MemoryInterval 600000000)
          (accepted sample_a 10 20 three_clients)).
Proof.
  exact (proj1 (proj2 (memory_pressure_clears any_serializer 600000000
                         (accepted sample_a 10 20 three_clients) eq_refl))).
Defined.

Lemma only_connection_registers_witness :
  Map.get "z" (connectedClients (step any_serializer PingInterval three_clients)) = None.
Proof.
  exact (only_connection_registers any_serializer PingInterval "z" three_clients
           three_clients_wf eq_refl eq_refl).
Defined.

Lemma store_frame_witness :
  dataPoints (step any_serializer PingInterval (accepted sample_a 10 20 three_clients))
  = dataPoints (accepted sample_a 10 20 three_clients).
Proof.
  exact (proj1 (store_frame any_serializer PingInterval
                  (accepted sample_a 10 20 three_clients) three_clients_wf eq_refl)).
Defined.

Lemma connect_then_close_witness :
  on_close (Js.substring_from 7 "0.4fzyo82mvyr")
           (snd (on_connection "0.4fzyo82mvyr" (open_socket 4) 13 13 three_clients))
  = (Normal tt, add_effects [WsTerminate (open_socket 4) true] three_clients).
Proof.
  exact (connect_then_close "0.4fzyo82mvyr" (open_socket 4) 13 13 three_clients eq_refl).
Defined.

(** X19. Two connections under one id share one entry. When a second
    connection is given the id of a registered one, it takes over the
    entry: the first transport is dropped from the registry without being
    terminated, and from then on the first connection's own events act on
    the second: its ['pong'] marks the second alive, and its ['close']
    terminates the second transport and removes the entry. *)
Theorem colliding_ids_share_an_entry (rnd1 rnd2 : string) (w1 w2 : WebSocket)
    (a1 a2 b1 b2 now : float) (s : Server) :
  Js.substring_from 7 rnd1 = Js.substring_from 7 rnd2 ->
  let id := Js.substring_from 7 rnd1 in
  let s1 := snd (on_connection rnd1 w1 a1 a2 s) in
  let s2 := snd (on_connection rnd2 w2 b1 b2 s1) in
  Map.get id (connectedClients s2) = Some (mkClientInfo w2 b1 b2 true)
  /\ Map.size (connectedClients s2) = Map.size (connectedClients s1)
  /\ effects s2 = effects s
  /\ Map.get id (connectedClients (snd (on_pong id now s2)))
     = Some (mkClientInfo w2 b1 now true)
  /\ on_close id s2
     = (Normal tt, terminated id (mkClientInfo w2 b1 b2 true) s2)
  /\ Map.get id (connectedClients (snd (on_close id s2))) = None.
Proof.
  intros Hid id s1 s2.
  assert (E1 : connectedClients s1
               = Map.set id (mkClientInfo w1 a1 a2 true) (connectedClients s))
    by reflexivity.
  assert (E2 : connectedClients s2
               = Map.set id (mkClientInfo w2 b1 b2 true) (connectedClients s1)).
  { subst s2. unfold on_connection, modify, with_clients. cbn [snd connectedClients].
    rewrite <- Hid. reflexivity. }
  assert (H1 : Map.get id (connectedClients s1) = Some (mkClientInfo w1 a1 a2 true))
    by (rewrite E1; apply Map_get_set_same).
  assert (H2 : Map.get id (connectedClients s2) = Some (mkClientInfo w2 b1 b2 true))
    by (rewrite E2; apply Map_get_set_same).
  split; [exact H2|]. split; [|split; [|split; [|split]]].
  - rewrite E2.
    now apply Map_size_set_present with (v' := mkClientInfo w1 a1 a2 true).
  - reflexivity.
  - rewrite (on_pong_present id now _ s2 H2). simpl. apply Map_get_set_same.
  - unfold on_close. now apply cleanupClient_present.
  - unfold on_close. apply cleanupClient_removes.
Qed.

Lemma colliding_ids_share_an_entry_witness :
  on_close ""
    (snd (on_connection "0.9" (open_socket 2) 20 20
            (snd (on_connection "0.i" (open_socket 1) 10 10 initial))))
  = (Normal tt,
     terminated "" (mkClientInfo (open_socket 2) 20 20 true)
       (snd (on_connection "0.9" (open_socket 2) 20 20
               (snd (on_connection "0.i" (open_socket 1) 10 10 initial))))).
Proof.
  exact (proj1 (proj2 (proj2 (proj2 (proj2
           (colliding_ids_share_an_entry "0.i" "0.9" (open_socket 1) (open_socket 2)
              10 10 20 20 30 initial eq_refl)))))).
Defined.

(** * The page scripts *)

Module ClientFacts.
Import Client.

(** ** The retrying fetch *)

Lemma retry_succeeds net url options v (k : nat) :
  forall remaining i lastError log,
    k < remaining ->
    (forall j, j < k -> exists error, attempt (net (i + j)) = inr error) ->
    attempt (net (i + k)) = inl v ->
    retry net url options remaining i lastError log
    = (Resolves v,
       log ++ flat_map (failed_attempt url options) (seq i k) ++ [Fetch url options]).
Proof.
  induction k as [|k IH]; intros remaining i lastError log Hk Hfail Hok.
  - destruct remaining as [|r]; [lia|]. simpl.
    rewrite Nat.add_0_r in Hok. now rewrite Hok.
  - destruct remaining as [|r]; [lia|]. simpl retry.
    destruct (Hfail 0) as [error He]; [lia|]. rewrite Nat.add_0_r in He. rewrite He.
    rewrite (IH r (S i) (Some error)).
    + simpl. unfold failed_attempt at 2. simpl. now rewrite <- app_assoc.
    + lia.
    + intros j Hj. destruct (Hfail (S j)) as [e' He']; [lia|].
      exists e'. now replace (S i + j) with (i + S j) by lia.
    + now replace (S i + k) with (i + S k) by lia.
Qed.

Lemma retry_gives_up net url options (remaining : nat) :
  forall i lastError log,
    (forall j, j < remaining -> exists error, attempt (net (i + j)) = inr error) ->
    exists last,
      retry net url options remaining i lastError log
      = (Rejects last,
         log ++ flat_map (failed_attempt url options) (seq i remaining))
      /\ match remaining with
         | 0 => last = lastError
         | S m => attempt (net (i + m)) = inr match last with
                                              | Some error => error
                                              | None => NetworkFailure ""
                                              end
                  /\ last <> None
         end.
Proof.
  induction remaining as [|r IH]; intros i lastError log Hfail.
  - exists lastError. simpl. now rewrite app_nil_r.
  - destruct (Hfail 0) as [error He]; [lia|].
    rewrite Nat.add_0_r in He.
    destruct (IH (S i) (Some error)
                 (log ++ [Fetch url options; Wait (1000 * 2 ^ N.of_nat i)]))
      as [last [E Hlast]].
    { intros j Hj. destruct (Hfail (S j)) as [e' He']; [lia|].
      exists e'. now replace (S i + j) with (i + S j) by lia. }
    exists last. split.
    + cbn [retry]. rewrite He, E. cbn [seq flat_map]. unfold failed_attempt at 2.
      now rewrite <- app_assoc.
    + destruct r as [|m].
      * subst last. rewrite Nat.add_0_r. split; [exact He | discriminate].
      * now replace (i + S m) with (S i + m) by lia.
Qed.

Lemma fetches_backoff url options k i :
  fetches (flat_map (failed_attempt url options) (seq i k)) = k.
Proof.
  revert i. induction k as [|k IH]; intros i; [reflexivity|].
  unfold fetches in *. simpl. now rewrite IH.
Qed.

Lemma fetches_app l1 l2 : fetches (l1 ++ l2) = fetches l1 + fetches l2.
Proof. unfold fetches. now rewrite filter_app, length_app. Qed.

Lemma waited_app l1 l2 : waited (l1 ++ l2) = (waited l1 + waited l2)%N.
Proof.
  induction l1 as [|[u o|ms] l1 IH]; simpl; auto. rewrite IH. lia.
Qed.

Lemma waited_backoff url options k i :
  (waited (flat_map (failed_attempt url options) (seq i k)) + 1000 * 2 ^ N.of_nat i
   = 1000 * 2 ^ N.of_nat (i + k))%N.
Proof.
  revert i. induction k as [|k IH]; intros i.
  - simpl. now rewrite Nat.add_0_r.
  - specialize (IH (S i)). replace (i + S k) with (S i + k) by lia.
    rewrite <- IH. rewrite Nat2N.inj_succ, N.pow_succ_r'.
    cbn [seq flat_map]. unfold failed_attempt at 1.
    set (x := (2 ^ N.of_nat i)%N).
    set (w := waited (flat_map (failed_attempt url options) (seq (S i) k))).
    cbn [app waited]. fold w. lia.
Qed.

(** X14. The retrying fetch returns the first success. When the first
    [k] attempts fail and the next one, still within [maxRetries],
    succeeds, [fetchWithRetry] resolves to that response's JSON after
    [k + 1] calls of [fetch]; between them it has waited 1000, 2000, 4000,
    ... ms, 1000 * (2^k - 1) ms in all, and it does not wait after the
    success. *)
Theorem fetchWithRetry_first_success
    (net : nat -> fetched) (url : string) (options v : value) (maxRetries k : nat) :
  k < maxRetries ->
  (forall j, j < k -> exists error, attempt (net j) = inr error) ->
  attempt (net k) = inl v ->
  fetchWithRetry net url options maxRetries
  = (Resolves v,
     flat_map (failed_attempt url options) (seq 0 k) ++ [Fetch url options])
  /\ fetches (snd (fetchWithRetry net url options maxRetries)) = S k
  /\ (waited (snd (fetchWithRetry net url options maxRetries)) + 1000
      = 1000 * 2 ^ N.of_nat k)%N.
Proof.
  intros Hk Hfail Hok. unfold fetchWithRetry.
  rewrite (retry_succeeds net url options v k maxRetries 0 None [] Hk Hfail Hok).
  simpl snd. simpl app. split; [reflexivity|]. split.
  - rewrite fetches_app, fetches_backoff. unfold fetches. simpl. lia.
  - rewrite waited_app. cbn [waited].
    pose proof (waited_backoff url options k 0) as H.
    change (N.of_nat 0) with 0%N in H. change (0 + k) with k in H.
    rewrite N.pow_0_r in H. lia.
Qed.

(** X15. The retrying fetch gives up after [maxRetries] attempts. When
    every attempt fails it rejects with the failure of the last one, after
    exactly [maxRetries] calls of [fetch] and a wait after each of them,
    the last included: 1000 * (2^maxRetries - 1) ms in all, so 7000 ms at
    the default of 3. With [maxRetries] at 0 it rejects with [undefined]
    without calling [fetch]. *)
Theorem fetchWithRetry_gives_up
    (net : nat -> fetched) (url : string) (options : value) (maxRetries : nat) :
  (forall j, j < maxRetries -> exists error, attempt (net j) = inr error) ->
  exists last,
    fetchWithRetry net url options maxRetries
    = (Rejects last, flat_map (failed_attempt url options) (seq 0 maxRetries))
    /\ match maxRetries with
       | 0 => last = None
       | S m => exists error, last = Some error /\ attempt (net m) = inr error
       end
    /\ fetches (snd (fetchWithRetry net url options maxRetries)) = maxRetries
    /\ (waited (snd (fetchWithRetry net url options maxRetries)) + 1000
        = 1000 * 2 ^ N.of_nat maxRetries)%N
    /\ (maxRetries = default_maxRetries ->
        waited (snd (fetchWithRetry net url options maxRetries)) = 7000%N).
Proof.
  intros Hfail. unfold fetchWithRetry.
  destruct (retry_gives_up net url options maxRetries 0 None [] Hfail)
    as [last [E Hlast]].
  exists last. rewrite E. simpl snd. simpl app.
  split; [reflexivity|].
  assert (Hw : (waited (flat_map (failed_attempt url options) (seq 0 maxRetries)) + 1000
                = 1000 * 2 ^ N.of_nat maxRetries)%N).
  { pose proof (waited_backoff url options maxRetries 0) as H.
    change (N.of_nat 0) with 0%N in H. change (0 + maxRetries) with maxRetries in H.
    rewrite N.pow_0_r in H. lia. }
  split; [|split; [apply fetches_backoff | split; [exact Hw|]]].
  - destruct maxRetries as [|m]; [exact Hlast|].
    destruct Hlast as [Ha Hn]. destruct last as [error|]; [|congruence].
    exists error. auto.
  - intros ->. reflexivity.
Qed.

(** ** Polling *)

Lemma poll_one_timer p c : one_timer p -> one_timer (poll p c).
Proof.
  unfold one_timer. intros H. destruct c; simpl.
  - unfold startPolling. destruct (updateInterval p) eqn:E; simpl.
    + now rewrite E.
    + now rewrite H.
  - unfold stopPolling. destruct (updateInterval p) eqn:E; simpl.
    + rewrite H. unfold clearInterval. simpl. now rewrite Pos.eqb_refl.
    + now rewrite E.
Qed.

(** X16. Polling is never doubled. From page load, after any sequence of
    [startPolling] and [stopPolling] calls, the script has at most one
    interval timer running, of period 500 ms, and it is the one
    [updateInterval] holds; a [startPolling] while one runs starts no
    second one, and after a [stopPolling] none runs. *)
Theorem polling_single_timer (calls : list polling_call) :
  let p := fold_left poll calls page_load in
  intervals p = match updateInterval p with
                | Some h => [(h, 500%N)]
                | None => []
                end
  /\ length (intervals p) <= 1
  /\ intervals (startPolling (startPolling p)) = intervals (startPolling p)
  /\ intervals (stopPolling p) = [].
Proof.
  intros p.
  assert (H : one_timer p).
  { subst p. generalize page_load, (eq_refl : one_timer page_load).
    induction calls as [|c calls IH]; intros p0 H0; simpl; auto.
    apply IH. now apply poll_one_timer. }
  split; [exact H|]. split; [|split].
  - rewrite H. destruct (updateInterval p); simpl; lia.
  - unfold startPolling at 1.
    destruct (updateInterval (startPolling p)) eqn:E; [reflexivity|].
    unfold startPolling in E.
    destruct (updateInterval p) eqn:E2; simpl in E; congruence.
  - pose proof (poll_one_timer p Stop H) as Hs. simpl in Hs.
    rewrite Hs. unfold stopPolling. destruct (updateInterval p) eqn:E; simpl; auto.
    now rewrite E.
Qed.

(** ** The fetch throttle *)

Lemma fetch_step_one_request t e : one_request t -> one_request (fetch_step t e).
Proof.
  unfold one_request. intros H. destruct e as [now|now]; simpl.
  - unfold fetchData_enter.
    destruct (fetchInProgress t) eqn:E; simpl; [now rewrite E|].
    destruct (too_soon now t); simpl; [now rewrite E|]. now rewrite H.
  - destruct (in_flight t) as [|n] eqn:En; [now rewrite En|].
    simpl. rewrite En. simpl. destruct (fetchInProgress t); lia.
Qed.

Lemma too_soon_calls_change_nothing (at_ : N) (t : Throttle) (calls : list N) :
  lastFetchTime t = at_ ->
  Forall (fun c => (c < at_ + 100)%N) calls ->
  fold_left fetch_step (map Called calls) t = t.
Proof.
  intros Hl. induction 1 as [|c calls Hc _ IH]; [reflexivity|].
  cbn [map fold_left fetch_step]. unfold fetchData_enter, too_soon, MIN_FETCH_INTERVAL.
  assert (E : (Z.of_N c - Z.of_N (lastFetchTime t) <? Z.of_N 100)%Z = true)
    by (apply Z.ltb_lt; lia).
  rewrite E, orb_true_r. exact IH.
Qed.

(** X17. One request at a time, and spaced. From page load, over any
    sequence of [fetchData] calls and settlements, at most one request is
    in flight, and [fetchInProgress] says whether one is; a call made while
    one is in flight starts nothing and changes nothing. When the request
    in flight settles at time [at_], that time is what the throttle keeps:
    calls made before [at_ + 100] ms, however many, start nothing and
    change nothing, and the first call at [at_ + 100] ms or later starts a
    request. Calls never move the mark; only a settlement does. *)
Theorem fetchData_one_at_a_time (trace : list fetch_event) (now : N) :
  let t := fold_left fetch_step trace throttle_start in
  in_flight t <= 1
  /\ (fetchInProgress t = true <-> in_flight t = 1)
  /\ (fetchInProgress t = true -> fetchData_enter now t = (false, t))
  /\ ((now < lastFetchTime t + 100)%N -> fetchData_enter now t = (false, t))
  /\ (fst (fetchData_enter now t) = true ->
      in_flight t = 0 /\ (lastFetchTime t + 100 <= now)%N)
  /\ lastFetchTime (fetch_step t (Called now)) = lastFetchTime t
  /\ (forall at_ : N,
        fetchInProgress t = true ->
        let t1 := fetch_step t (Settled at_) in
        t1 = mkThrottle false at_ 0
        /\ (forall calls,
              Forall (fun c => (c < at_ + 100)%N) calls ->
              fold_left fetch_step (map Called calls) t1 = t1)
        /\ ((now < at_ + 100)%N -> fetchData_enter now t1 = (false, t1))
        /\ ((at_ + 100 <= now)%N ->
            fetchData_enter now t1 = (true, mkThrottle true at_ 1))).
Proof.
  intros t.
  assert (H : one_request t).
  { subst t. generalize throttle_start, (eq_refl : one_request throttle_start).
    induction trace as [|e trace IH]; intros t0 H0; simpl; auto.
    apply IH. now apply fetch_step_one_request. }
  unfold one_request in H.
  split; [|split; [|split; [|split; [|split; [|split]]]]].
  - destruct (fetchInProgress t); lia.
  - destruct (fetchInProgress t); split; intros; try congruence; lia.
  - unfold fetchData_enter. intros ->. reflexivity.
  - unfold fetchData_enter, too_soon, MIN_FETCH_INTERVAL. intros Hlt.
    assert (E : (Z.of_N now - Z.of_N (lastFetchTime t) <? Z.of_N 100)%Z = true)
      by (apply Z.ltb_lt; lia).
    rewrite E. now rewrite orb_true_r.
  - unfold fetchData_enter, too_soon, MIN_FETCH_INTERVAL.
    destruct (fetchInProgress t) eqn:Ep; simpl; [intros Hf; discriminate Hf|].
    destruct (Z.of_N now - Z.of_N (lastFetchTime t) <? 100)%Z eqn:E;
      simpl; [intros Hf; discriminate Hf|].
    intros _. apply Z.ltb_ge in E. split; [exact H | lia].
  - cbn [fetch_step]. unfold fetchData_enter.
    now destruct (fetchInProgress t || too_soon now t).
  - intros at_ Hp t1.
    assert (E1 : t1 = mkThrottle false at_ 0).
    { subst t1. cbn [fetch_step]. unfold fetchData_finally.
      rewrite Hp in H. rewrite H. reflexivity. }
    split; [exact E1|]. rewrite E1. split; [|split].
    + intros calls Hcalls. now apply too_soon_calls_change_nothing with (at_ := at_).
    + intros Hlt. unfold fetchData_enter, too_soon, MIN_FETCH_INTERVAL. simpl.
      assert (E : (Z.of_N now - Z.of_N at_ <? 100)%Z = true)
        by (apply Z.ltb_lt; lia).
      now rewrite E.
    + intros Hge. unfold fetchData_enter, too_soon, MIN_FETCH_INTERVAL. simpl.
      assert (E : (Z.of_N now - Z.of_N at_ <? 100)%Z = false)
        by (apply Z.ltb_ge; lia).
      now rewrite E.
Qed.

(** ** Range selection *)

Lemma selectRange_in_bounds index cur :
  (0 <= cur < 8)%Z -> (0 <= fst (selectRange index cur) < 8)%Z.
Proof.
  intros H. unfold selectRange. simpl length.
  destruct (index <? 0)%Z eqn:E1; simpl; [exact H|].
  destruct (8 <=? index)%Z eqn:E2; simpl; [exact H|].
  apply Z.ltb_ge in E1. apply Z.leb_gt in E2. lia.
Qed.

Lemma selectRange_all_in_bounds indices : forall cur,
  (0 <= cur < 8)%Z ->
  (0 <= fold_left (fun cur index => fst (selectRange index cur)) indices cur < 8)%Z.
Proof.
  induction indices as [|index indices IH]; intros cur Hcur; simpl; auto.
  apply IH. now apply selectRange_in_bounds.
Qed.

Lemma labels_nth start n i :
  i < N.to_nat n -> nth i (labels start n) 0%N = (N.of_nat i + start + 1)%N.
Proof.
  intros H. unfold labels.
  set (f := fun j : nat => (N.of_nat j + start + 1)%N).
  transitivity (nth i (map f (seq 0 (N.to_nat n))) (f 0)).
  - apply nth_indep. now rewrite length_map, length_seq.
  - rewrite (map_nth f). now rewrite seq_nth.
Qed.

(** X18. The chart window. Whatever integers [selectRange] is called
    with, starting from the page's initial range, [currentRange] stays an
    index of [ranges]; out-of-range arguments change nothing and fetch
    nothing. The selected range covers the harmonic indices from
    100 * currentRange up to 100 more; the chart's x axis always carries
    the 100 labels start+1 .. end, while its y values are the sample's
    values in that window, in order: the i-th y value is the sample's
    value at index start + i, and there are fewer than 100 of them
    (possibly none) when the sample is shorter. *)
Theorem selectRange_window (indices : list Z) (harmonicData : list value) :
  let r := fold_left (fun cur index => fst (selectRange index cur)) indices 0%Z in
  (0 <= r < 8)%Z
  /\ (forall index, (index < 0 \/ 8 <= index)%Z -> selectRange index r = (r, false))
  /\ exists range,
       nth_error ranges (Z.to_nat r) = Some range
       /\ range_start range = (100 * Z.to_N r)%N
       /\ range_end range = (range_start range + 100)%N
       /\ length (chart_x range) = 100
       /\ (forall i, i < 100 ->
             nth i (chart_x range) 0%N = (range_start range + 1 + N.of_nat i)%N)
       /\ length (chart_y harmonicData range)
          = Nat.min 100 (length harmonicData - N.to_nat (range_start range))
       /\ (forall i, i < 100 ->
             nth_error (chart_y harmonicData range) i
             = nth_error harmonicData (N.to_nat (range_start range) + i))
       /\ (forall i, 100 <= i -> nth_error (chart_y harmonicData range) i = None).
Proof.
  intros r.
  assert (Hr : (0 <= r < 8)%Z).
  { subst r. apply selectRange_all_in_bounds. lia. }
  split; [exact Hr|]. split.
  - intros index Hi. unfold selectRange. simpl length.
    destruct (index <? 0)%Z eqn:E1; simpl; [reflexivity|].
    destruct (8 <=? index)%Z eqn:E2; simpl; [reflexivity|].
    apply Z.ltb_ge in E1. apply Z.leb_gt in E2. lia.
  - assert (Hcases : r = 0%Z \/ r = 1%Z \/ r = 2%Z \/ r = 3%Z \/ r = 4%Z
                     \/ r = 5%Z \/ r = 6%Z \/ r = 7%Z) by lia.
    clearbody r.
    assert (Hgen : forall range,
               range_end range = (range_start range + 100)%N ->
               length (chart_x range) = 100
               /\ (forall i, i < 100 ->
                     nth i (chart_x range) 0%N
                     = (range_start range + 1 + N.of_nat i)%N)
               /\ length (chart_y harmonicData range)
                  = Nat.min 100 (length harmonicData - N.to_nat (range_start range))
               /\ (forall i, i < 100 ->
                     nth_error (chart_y harmonicData range) i
                     = nth_error harmonicData (N.to_nat (range_start range) + i))
               /\ (forall i, 100 <= i ->
                     nth_error (chart_y harmonicData range) i = None)).
    { intros range He. unfold chart_x, chart_y, slice. rewrite He.
      replace (range_start range + 100 - range_start range)%N with 100%N by lia.
      change (N.to_nat 100) with 100.
      split; [|split; [|split; [|split]]].
      - unfold labels. now rewrite length_map, length_seq.
      - intros i Hi. rewrite labels_nth by exact Hi. lia.
      - now rewrite length_firstn, length_skipn.
      - intros i Hi. rewrite nth_error_firstn, nth_error_skipn.
        apply Nat.ltb_lt in Hi. now rewrite Hi.
      - intros i Hi. rewrite nth_error_firstn.
        apply Nat.ltb_ge in Hi. now rewrite Hi. }
    destruct Hcases as [->|[->|[->|[->|[->|[->|[->| ->]]]]]]];
      (eexists; split; [reflexivity|]; split; [reflexivity|];
       split; [reflexivity|]; apply Hgen; reflexivity).
Qed.

End ClientFacts.

(** ** Concrete runs of the page scripts *)

Lemma fetchWithRetry_first_success_witness :
  Client.fetchWithRetry flaky "/api/harmonics" VNull 3
  = (Client.Resolves (VArr []),
     [ Client.Fetch "/api/harmonics" VNull; Client.Wait 1000;
       Client.Fetch "/api/harmonics" VNull; Client.Wait 2000;
       Client.Fetch "/api/harmonics" VNull ]).
Proof.
  assert (Hfail : forall j, j < 2 -> exists error, Client.attempt (flaky j) = inr error).
  { intros j Hj. destruct j as [|[|j]]; [eexists; reflexivity | eexists; reflexivity | lia]. }
  exact (proj1 (ClientFacts.fetchWithRetry_first_success flaky "/api/harmonics" VNull
                  (VArr []) 3 2 (le_n 3) Hfail eq_refl)).
Defined.

Lemma fetchWithRetry_gives_up_witness :
  Client.waited (snd (Client.fetchWithRetry unreachable "/api/events" VNull 3)) = 7000%N.
Proof.
  assert (Hfail : forall j, j < 3 ->
                    exists error, Client.attempt (unreachable j) = inr error).
  { intros j _. eexists. reflexivity. }
  destruct (ClientFacts.fetchWithRetry_gives_up unreachable "/api/events" VNull 3 Hfail)
    as (last & _ & _ & _ & _ & H).
  exact (H eq_refl).
Defined.
